(** * CloudMart cost-governance dashboard: the data path of
      [streamlit_dashboard.py]

    The dashboard loads a CSV inventory of cloud resources into a pandas
    DataFrame, scores every row by the number of governance tags it
    carries, computes tagged/untagged metrics, and lets an operator edit
    the untagged rows; the edits are written back into a copy of the
    frame, which is scored again and exported as CSV.

    This development embeds that data path: [load_data],
    [calculate_metrics] and the write-back loop of
    [show_remediation_page], on top of a small model of the pandas
    operations they call.  Charts and widgets are not modelled.

    Numbers: pandas holds costs as binary64 floating point.  Here a
    number is the rational it denotes ([Qc], canonical fractions, so that
    numeric equality is Leibniz equality).  [Series.sum()] adds in doubles,
    in the order numpy adds them, rounding after every addition
    ([series_sum]).  The quotients of [calculate_metrics] and the mean are
    kept exact: the code's doubles are their roundings.  Infinities and
    the wrap-around of int64 columns are not represented. *)

From Stdlib Require Import QArith Qcanon Qround.
From stdpp Require Import base numbers strings list gmap fin_maps sorting.

Local Open Scope string_scope.
Local Open Scope nat_scope.
Local Open Scope list_scope.

(** ** Cells, exceptions and results *)

(** A DataFrame cell: pandas' missing value, a Python [str], or a number. *)
Inductive cell :=
  | NaN
  | Str (s : string)
  | Num (q : Qc).

Global Instance cell_eq_dec : EqDecision cell.
Proof. solve_decision. Defined.

Global Instance cell_inhabited : Inhabited cell := populate NaN.

(** The Python exceptions the data path can raise. *)
Inductive exn :=
  | KeyError (missing : list string)
  | TypeError
  | ParserError.

Global Instance exn_eq_dec : EqDecision exn.
Proof. solve_decision. Defined.

Inductive result (A : Type) :=
  | Ok (a : A)
  | Raise (e : exn).
Global Arguments Ok {A} a.
Global Arguments Raise {A} e.

Global Instance result_eq_dec {A} `{EqDecision A} : EqDecision (result A).
Proof. solve_decision. Defined.

Global Instance result_ret : MRet result := λ A a, Ok a.
Global Instance result_bind : MBind result := λ A B f m,
  match m with
  | Ok a => f a
  | Raise e => Raise e
  end.
Global Instance result_fmap : FMap result := λ A B f m,
  match m with
  | Ok a => Ok (f a)
  | Raise e => Raise e
  end.

(** ** DataFrames *)

(** A row maps column names to cells; a frame is its column list (in
    order) and its rows (in index order).  The row index itself is not
    modelled: every frame here carries the unique index [read_csv] gave
    it, and all assignments are between series of the same frame. *)
Abbreviation row := (gmap string cell).

Record DataFrame := {
  columns : list string;
  rows : list row
}.

Global Instance DataFrame_eq_dec : EqDecision DataFrame.
Proof. solve_decision. Defined.

(** A series is a column taken out of a frame. *)
Abbreviation series := (list cell).

Definition at_col (r : row) (c : string) : cell := default NaN (r !! c).

(** [pd.notna] on one cell. *)
Definition notna (v : cell) : bool :=
  match v with
  | NaN => false
  | _ => true
  end.

(** Elementwise [==]: a missing value equals nothing, not even itself. *)
Definition cell_eq (a b : cell) : bool :=
  match a, b with
  | Str s, Str t => bool_decide (s = t)
  | Num p, Num q => bool_decide (p = q)
  | _, _ => false
  end.

(** [df[c]] *)
Definition getitem (df : DataFrame) (c : string) : result series :=
  if decide (c ∈ columns df)
  then Ok ((λ r, at_col r c) <$> rows df)
  else Raise (KeyError [c]).

(** [df[cs]] for a list of labels: a new frame with exactly those columns;
    [KeyError] names every label that is not a column. *)
Definition getitems (df : DataFrame) (cs : list string) : result DataFrame :=
  match filter (λ c, c ∉ columns df) cs with
  | [] => Ok {| columns := cs;
                rows := (λ r, filter (λ kv, kv.1 ∈ cs) r) <$> rows df |}
  | missing => Raise (KeyError missing)
  end.

(** [df[mask]] for a boolean mask. *)
Definition getmask (df : DataFrame) (mask : list bool) : DataFrame :=
  {| columns := columns df;
     rows := fst <$> filter (λ rm, rm.2 = true) (zip (rows df) mask) |}.

(** Where an assignment to column [c] puts it: in place when the frame has
    the column, else as a new last column. *)
Definition add_column (cols : list string) (c : string) : list string :=
  if decide (c ∈ cols) then cols else cols ++ [c].

(** [df[c] = vals], for a series [vals] taken from the same frame: the
    column is overwritten where it is, or appended as the last column. *)
Definition setitem (df : DataFrame) (c : string) (vals : series) : DataFrame :=
  {| columns := add_column (columns df) c;
     rows := zip_with (λ r v, <[c := v]> r) (rows df) vals |}.

(** [df.loc[mask, c] = v] for a scalar [v]: the masked rows get [v] in
    column [c].  A label that is not yet a column is added as the last
    one, missing in every row outside the mask.  A column takes a value
    of any kind, as in pandas 2, which widens the column's dtype; pandas 3
    raises [TypeError] for a value the dtype cannot hold (a string written
    into a column of numbers or of missing values only).  The source pins
    no version: what is proved of the write-back is proved of the runs
    that return. *)
Definition loc_set (df : DataFrame) (mask : list bool) (c : string) (v : cell)
    : DataFrame :=
  {| columns := add_column (columns df) c;
     rows := zip_with (λ r (m : bool),
               if m then <[c := v]> r
               else if decide (c ∈ columns df) then r else <[c := NaN]> r)
             (rows df) mask |}.

(** [df.drop_duplicates()]: of rows equal in every column the first is
    kept, and the order of the kept rows is that of the frame.  Missing
    values count as equal to each other here. *)
Fixpoint keep_first {A} `{EqDecision A} (l : list A) : list A :=
  match l with
  | [] => []
  | x :: l' => x :: filter (λ y, y ≠ x) (keep_first l')
  end.

Definition drop_duplicates (df : DataFrame) : DataFrame :=
  {| columns := columns df; rows := keep_first (rows df) |}.

(** [df.notna().sum(axis=1)]: per row, the number of columns of the frame
    that hold a value. *)
Definition Qc_of_nat (n : nat) : Qc := Qc_of_Z (Z.of_nat n).

Definition count_notna (r : row) (cs : list string) : nat :=
  length (filter (λ c, notna (at_col r c) = true) cs).

Definition notna_sum_axis1 (df : DataFrame) : series :=
  (λ r, Num (Qc_of_nat (count_notna r (columns df)))) <$> rows df.

(** Arithmetic of a series with a scalar ([s / k], [s * k]): missing
    stays missing, a string cell raises. *)
Definition series_map (f : Qc → Qc) (s : series) : result series :=
  mapM (M := result) (λ v : cell,
    match v with
    | NaN => Ok NaN
    | Num q => Ok (Num (f q))
    | Str _ => Raise TypeError
    end) s.

(** ** Reading and writing CSV *)

(** A CSV document as [read_csv] types it: a header line and the
    records, each field either text it keeps as a string or a numeral it
    converts to a number (the double it parses to).  Splitting lines,
    quoting, the syntax of numerals and the choice between the two, which
    pandas makes per column from the raw text, are not modelled: a
    statement that depends on them says which cells it is about (see
    [csv_stable]). *)
Inductive field :=
  | Text (s : string)
  | Number (q : Qc).

Global Instance field_eq_dec : EqDecision field.
Proof. solve_decision. Defined.

Record RawTable := {
  headers : list string;
  records : list (list field)
}.

Global Instance RawTable_eq_dec : EqDecision RawTable.
Proof. solve_decision. Defined.

(** The strings [read_csv] reads as missing by default
    ([keep_default_na=True]); pandas' [STR_NA_VALUES]. *)
Definition STR_NA_VALUES : list string :=
  [ EmptyString; "#N/A"; "#N/A N/A"; "#NA"; "-1.#IND"; "-1.#QNAN"; "-NaN";
    "-nan"; "1.#IND"; "1.#QNAN"; "<NA>"; "N/A"; "NA"; "NULL"; "NaN"; "None";
    "n/a"; "nan"; "null" ].

Definition read_field (na_values : list string) (f : field) : cell :=
  match f with
  | Text s => if decide (s ∈ na_values ++ STR_NA_VALUES) then NaN else Str s
  | Number q => Num q
  end.

(** One record under the header: a record shorter than the header is
    filled up with missing values. *)
Definition read_record (hs : list string) (na_values : list string)
    (fs : list field) : row :=
  list_to_map (zip hs (resize (length hs) NaN (read_field na_values <$> fs))).

(** [pd.read_csv(filepath, na_values=...)].  A record longer than the
    header makes pandas raise.  (When it is the first record that is one
    field longer, pandas takes the first field of every record as the row
    label instead; that shape is not modelled, and [read_csv] raises for
    it too.)  Header names are taken as they are (pandas renames repeated
    and empty ones; the statements below about cell contents ask for
    distinct names). *)
Definition read_csv (raw : RawTable) (na_values : list string)
    : result DataFrame :=
  if decide (Forall (λ fs, (length fs ≤ length (headers raw))%nat) (records raw))
  then Ok {| columns := headers raw;
             rows := read_record (headers raw) na_values <$> records raw |}
  else Raise ParserError.

(** [df.to_csv(buf, index=False)]: every column in order, a missing value
    as the empty field.  The file pandas writes is plain text: a string
    is written as it is and a number as its shortest decimal, and
    [read_csv] decides anew, column by column, what is a number.  The
    typed field written here is what [read_csv] makes of that text when
    the column holds only plain text or only whole numbers
    ([csv_stable]). *)
Definition write_cell (v : cell) : field :=
  match v with
  | NaN => Text EmptyString
  | Str s => Text s
  | Num q => Number q
  end.

Definition to_csv (df : DataFrame) : RawTable :=
  {| headers := columns df;
     records := (λ r, (λ c, write_cell (at_col r c)) <$> columns df)
                <$> rows df |}.

(** ** The loader *)

Definition tag_fields : list string :=
  ["Department"; "Project"; "Environment"; "Owner"; "CostCenter"].

(** The strings [load_data] adds to them: [na_values=['', ' ']]. *)
Definition load_na_values : list string := [EmptyString; " "].

(** The two statements that score a frame, shared by [load_data] and
    [show_remediation_page]:
<<
    df['TagCompletenessScore'] = df[tag_fields].notna().sum(axis=1)
    df['TagCompletenessPercentage'] =
        (df['TagCompletenessScore'] / len(tag_fields)) * 100
>> *)
Definition score_tags (df : DataFrame) : result DataFrame :=
  tags ← getitems df tag_fields;
  let df := setitem df "TagCompletenessScore" (notna_sum_axis1 tags) in
  score ← getitem df "TagCompletenessScore";
  ratio ← series_map (λ q, q / Qc_of_nat (length tag_fields))%Qc score;
  pct ← series_map (λ q, q * Qc_of_nat 100)%Qc ratio;
  Ok (setitem df "TagCompletenessPercentage" pct).

(** [load_data(filepath)], on the tokenized content of the file. *)
Definition load_data (raw : RawTable) : result DataFrame :=
  df ← read_csv raw load_na_values;
  let df := drop_duplicates df in
  score_tags df.

(** ** Metrics *)

(** *** Doubles *)

(** [2^p] for an exponent of either sign. *)
Definition pow2 (p : Z) : Qc :=
  (Qc_of_Z (2 ^ Z.max p 0) / Qc_of_Z (2 ^ Z.max (- p) 0))%Qc.

(** The integer nearest to [q]; of two equally near, the even one. *)
Definition round_half_even (q : Qc) : Z :=
  let f := Qfloor q in
  match (q - Qc_of_Z f ?= Q2Qc (1 # 2))%Qc with
  | Lt => f
  | Gt => (f + 1)%Z
  | Eq => if Z.even f then f else (f + 1)%Z
  end.

(** The exponent of the last place of a positive [q] in binary64: 52
    below that of its leading bit, and never below that of the
    subnormals. *)
Definition ulp_exponent (q : Qc) : Z :=
  let e := (Z.log2 (Qnum q) - Z.log2 (Zpos (Qden q)))%Z in
  let e := if bool_decide (pow2 e ≤ q)%Qc then e else (e - 1)%Z in
  Z.max (e - 52) (-1074).

Definition round_positive (q : Qc) : Qc :=
  let p := ulp_exponent q in
  (Qc_of_Z (round_half_even (q / pow2 p)) * pow2 p)%Qc.

(** Rounding to the nearest double, ties to even (no overflow to
    infinity: see the head of the file). *)
Definition round64 (q : Qc) : Qc :=
  match (q ?= 0)%Qc with
  | Eq => 0%Qc
  | Gt => round_positive q
  | Lt => (- round_positive (- q))%Qc
  end.

(** The sum of two doubles. *)
Definition fadd (x y : Qc) : Qc := round64 (x + y).

(** numpy's sum of a contiguous array of doubles ([pairwise_sum], which
    [np.add.reduce] runs over the whole column): a plain loop below 8
    elements; up to 128 elements 8 running sums, added up in pairs, and a
    loop over the rest; above that the two halves, the first a multiple
    of 8 long. *)
Definition sum_loop (res : Qc) (a : list Qc) : Qc := foldl fadd res a.

Fixpoint add_lanes (groups : nat) (r a : list Qc) : list Qc * list Qc :=
  match groups with
  | 0 => (r, a)
  | S groups => add_lanes groups (zip_with fadd r (take 8 a)) (drop 8 a)
  end.

Definition lane (r : list Qc) (j : nat) : Qc := default 0%Qc (r !! j).

Definition sum_block (a : list Qc) : Qc :=
  let '(r, rest) := add_lanes (length a / 8 - 1) (take 8 a) (drop 8 a) in
  sum_loop (fadd (fadd (fadd (lane r 0) (lane r 1)) (fadd (lane r 2) (lane r 3)))
                 (fadd (fadd (lane r 4) (lane r 5)) (fadd (lane r 6) (lane r 7))))
           rest.

Fixpoint pairwise (depth : nat) (a : list Qc) : Qc :=
  let n := length a in
  if decide (n < 8) then sum_loop 0%Qc a
  else if decide (n ≤ 128) then sum_block a
  else match depth with
       | 0 => sum_block a
       | S depth =>
           let n2 := n / 2 - (n / 2) mod 8 in
           fadd (pairwise depth (take n2 a)) (pairwise depth (drop n2 a))
       end.

(** The recursion halves the array, so its length bounds the depth
    ([pairwise_depth] below: the depth is never used up). *)
Definition pairwise_sum (a : list Qc) : Qc := pairwise (length a) a.

(** *** Sum and mean of a column *)

(** The values [Series.sum()] adds: a missing value counts as 0 (pandas
    fills it in before it calls numpy, so it keeps its place in the
    array); a string makes the metrics raise. *)
Fixpoint fill_missing (s : series) : result (list Qc) :=
  match s with
  | [] => Ok []
  | NaN :: s' => vs ← fill_missing s'; Ok (0%Qc :: vs)
  | Num q :: s' => vs ← fill_missing s'; Ok (q :: vs)
  | Str _ :: _ => Raise TypeError
  end.

(** [Series.sum()] of a column of doubles; the empty sum is 0.  (A column
    of integers is added in int64, which gives the same as long as the
    sums stay below [2^53].) *)
Definition series_sum (s : series) : result Qc :=
  vs ← fill_missing s; Ok (pairwise_sum vs).

(** The exact sum of the values present. *)
Fixpoint series_total (s : series) : result Qc :=
  match s with
  | [] => Ok 0%Qc
  | NaN :: s' => series_total s'
  | Num q :: s' => t ← series_total s'; Ok (q + t)%Qc
  | Str _ :: _ => Raise TypeError
  end.

(** [Series.mean()]: the sum over the count of the values present; [None]
    stands for the NaN pandas returns when there is none.  The mean is
    kept as the exact quotient; the double pandas returns is its rounding
    when the values are whole numbers with a sum below [2^53], as the
    scores of a frame are. *)
Definition series_mean (s : series) : result (option Qc) :=
  t ← series_total s;
  let n := length (filter (λ v, notna v = true) s) in
  Ok (if decide (n = 0) then None else Some (t / Qc_of_nat n)%Qc).

Record Metrics := {
  total_resources : nat;
  tagged_resources : nat;
  untagged_resources : nat;
  tagging_rate : Qc;
  total_cost : Qc;
  tagged_cost : Qc;
  untagged_cost : Qc;
  untagged_cost_pct : Qc;
  avg_completeness : option Qc
}.

Global Instance Metrics_eq_dec : EqDecision Metrics.
Proof. solve_decision. Defined.


(** [df[df['Tagged'] == v]] *)
Definition where_tagged (df : DataFrame) (v : string) : result DataFrame :=
  tagged ← getitem df "Tagged";
  Ok (getmask df ((λ t, cell_eq t (Str v)) <$> tagged)).

Definition calculate_metrics (df : DataFrame) : result Metrics :=
  let total_resources := length (rows df) in
  yes ← where_tagged df "Yes";
  let tagged_resources := length (rows yes) in
  no ← where_tagged df "No";
  let untagged_resources := length (rows no) in
  total_cost ← getitem df "MonthlyCostUSD" ≫= series_sum;
  yes ← where_tagged df "Yes";
  tagged_cost ← getitem yes "MonthlyCostUSD" ≫= series_sum;
  no ← where_tagged df "No";
  untagged_cost ← getitem no "MonthlyCostUSD" ≫= series_sum;
  avg_completeness ← getitem df "TagCompletenessScore" ≫= series_mean;
  Ok {| total_resources := total_resources;
        tagged_resources := tagged_resources;
        untagged_resources := untagged_resources;
        tagging_rate :=
          if decide (0 < total_resources)%nat
          then (Qc_of_nat tagged_resources / Qc_of_nat total_resources
                * Qc_of_nat 100)%Qc
          else 0%Qc;
        total_cost := total_cost;
        tagged_cost := tagged_cost;
        untagged_cost := untagged_cost;
        untagged_cost_pct :=
          if decide (0 < total_cost)%Qc
          then (untagged_cost / total_cost * Qc_of_nat 100)%Qc
          else 0%Qc;
        avg_completeness := avg_completeness |}.

(** ** Objects and in-place updates *)

(** DataFrames are mutable objects.  The page receives a reference to the
    loaded frame, copies it and updates the copy in place; the store maps
    references to the frames they denote, and a statement is a function on
    the store that may raise. *)
Abbreviation ref := positive.
Abbreviation store := (gmap positive DataFrame).

Definition Py (A : Type) : Type := store → result (A * store).

Global Instance Py_ret : MRet Py := λ A a h, Ok (a, h).
Global Instance Py_bind : MBind Py := λ A B f m h,
  match m h with
  | Ok (a, h') => f a h'
  | Raise e => Raise e
  end.

(** A pure expression evaluated inside a statement. *)
Definition lift {A} (m : result A) : Py A := λ h,
  match m with
  | Ok a => Ok (a, h)
  | Raise e => Raise e
  end.

(** A new object, at a reference no object has yet. *)
Definition new (df : DataFrame) : Py ref := λ h,
  let l := fresh (dom h) in Ok (l, <[l := df]> h).

(** The frame a reference denotes.  Python has no dangling references; the
    store lookup of an unknown reference is reported as a [KeyError] with
    no label only to keep the model total. *)
Definition deref (l : ref) : Py DataFrame := λ h,
  match h !! l with
  | Some df => Ok (df, h)
  | None => Raise (KeyError [])
  end.

(** An in-place update of the object at [l]. *)
Definition update (l : ref) (f : DataFrame → result DataFrame) : Py unit := λ h,
  match h !! l with
  | Some df =>
      match f df with
      | Ok df' => Ok ((), <[l := df']> h)
      | Raise e => Raise e
      end
  | None => Raise (KeyError [])
  end.

(** [df.copy()] *)
Definition copy (l : ref) : Py ref := deref l ≫= new.

(** [for x in xs: body] *)
Fixpoint for_each {A} (xs : list A) (body : A → Py unit) : Py unit :=
  match xs with
  | [] => mret ()
  | x :: xs' => body x ≫= λ _, for_each xs' body
  end.

(** ** The remediation write-back *)

Definition edit_columns : list string :=
  ["ResourceID"; "Service"; "Region"; "Department"; "Project";
   "Environment"; "Owner"; "CostCenter"; "MonthlyCostUSD"; "Tagged"].

(** [row[c]] for a row handed out by [edited_df.iterrows()]. *)
Definition row_item (cols : list string) (r : row) (c : string) : result cell :=
  if decide (c ∈ cols) then Ok (at_col r c) else Raise (KeyError [c]).

(** Lines 342-353 of [show_remediation_page]: the edited rows are written
    into a copy of the loaded frame, and the copy is scored again.
<<
    remediated_df = df.copy()
    for idx, row in edited_df.iterrows():
        mask = remediated_df['ResourceID'] == row['ResourceID']
        for col in edit_columns:
            if col in edited_df.columns:
                remediated_df.loc[mask, col] = row[col]
    remediated_df['TagCompletenessScore'] = ...
    remediated_df['TagCompletenessPercentage'] = ...
>> *)
Definition remediate (df : ref) (edited_df : DataFrame) : Py ref :=
  remediated_df ← copy df;
  for_each (rows edited_df) (λ row,
    ids ← deref remediated_df ≫= (λ d, lift (getitem d "ResourceID"));
    rid ← lift (row_item (columns edited_df) row "ResourceID");
    let mask := (λ v, cell_eq v rid) <$> ids in
    for_each edit_columns (λ col,
      if decide (col ∈ columns edited_df)
      then v ← lift (row_item (columns edited_df) row col);
           update remediated_df (λ d, Ok (loc_set d mask col v))
      else mret ()));;
  update remediated_df score_tags;;
  mret remediated_df.

(** The data path of [show_remediation_page]: metrics before, the rows
    offered for editing ([Tagged == 'No'], the ten edit columns), the
    write-back of what the editor returns, metrics after, and the CSV
    offered for download.  [data_editor] is the widget: whatever table the
    operator leaves in it.  When no row is untagged the page returns
    early and nothing is merged ([None]). *)
Definition show_remediation_page (df : ref) (data_editor : DataFrame → DataFrame)
    : Py (option (Metrics * Metrics * ref * RawTable)) :=
  d ← deref df;
  before_metrics ← lift (calculate_metrics d);
  untagged_df ← lift (where_tagged d "No");
  if decide (length (rows untagged_df) = 0) then mret None else
  offered ← lift (getitems untagged_df edit_columns);
  let edited_df := data_editor offered in
  remediated_df ← remediate df edited_df;
  r ← deref remediated_df;
  after_metrics ← lift (calculate_metrics r);
  mret (Some (before_metrics, after_metrics, remediated_df, to_csv r)).

(** ** The analytics page *)

(** [df[df[c] == v]] for a scalar [v]. *)
Definition where_eq (df : DataFrame) (c : string) (v : cell) : result DataFrame :=
  col ← getitem df c;
  Ok (getmask df ((λ t, cell_eq t v) <$> col)).

(** The order [sorted] uses: strings by code point, character by
    character, numbers by value.  Python has no order between a string
    and a number; [sorted] below raises on such a list, and the clauses
    for mixed cells are here only to make the relation total. *)
Definition cell_le (a b : cell) : Prop :=
  match a, b with
  | NaN, _ => True
  | _, NaN => False
  | Num p, Num q => (p ≤ q)%Qc
  | Num _, Str _ => True
  | Str _, Num _ => False
  | Str s, Str t => String.leb s t = true
  end.

Global Instance cell_le_dec : RelDecision cell_le.
Proof. intros [|s|p] [|t|q]; simpl; apply _. Defined.

Definition is_str (v : cell) : bool :=
  match v with
  | Str _ => true
  | _ => false
  end.

Definition is_num (v : cell) : bool :=
  match v with
  | Num _ => true
  | _ => false
  end.

(** [sorted(values)] on a list of strings or of numbers; a list with both
    makes the comparison raise. *)
Definition sorted (vs : list cell) : result (list cell) :=
  if forallb is_str vs || forallb is_num vs
  then Ok (merge_sort cell_le vs)
  else Raise TypeError.

(** [['All'] + sorted(df[c].dropna().unique().tolist())]: the choices of a
    filter. *)
Definition filter_options (df : DataFrame) (c : string) : result (list cell) :=
  col ← getitem df c;
  values ← sorted (keep_first (filter (λ v, notna v = true) col));
  Ok (Str "All" :: values).

(** What the operator chose in the four select boxes. *)
Record Selection := {
  selected_service : cell;
  selected_region : cell;
  selected_department : cell;
  selected_environment : cell
}.

(** One of the four statements
<<
    if selected != 'All':
        filtered_df = filtered_df[filtered_df[c] == selected]
>> *)
Definition apply_filter (filtered_df : DataFrame) (c : string) (selected : cell)
    : result DataFrame :=
  if decide (selected ≠ Str "All") then where_eq filtered_df c selected
  else Ok filtered_df.

Definition apply_filters (df : DataFrame) (sel : Selection) : result DataFrame :=
  let filtered_df := df in
  filtered_df ← apply_filter filtered_df "Service" (selected_service sel);
  filtered_df ← apply_filter filtered_df "Region" (selected_region sel);
  filtered_df ← apply_filter filtered_df "Department" (selected_department sel);
  apply_filter filtered_df "Environment" (selected_environment sel).


(** ** Definitions used in the statements *)

(** The number a cell contributes to a sum. *)
Definition value_of (v : cell) : Qc :=
  match v with
  | Num q => q
  | _ => 0%Qc
  end.

Definition cost (r : row) : Qc := value_of (at_col r "MonthlyCostUSD").

(** The costs of some rows added exactly, and added as the code adds
    them. *)
Definition sum_cost (rs : list row) : Qc := foldr (λ r t, cost r + t)%Qc 0%Qc rs.

Definition double_sum_cost (rs : list row) : Qc := pairwise_sum (cost <$> rs).

(** A cost that is a whole number and not negative (a missing cost counts
    as 0). *)
Definition whole_cost (r : row) : Prop :=
  (0 ≤ Qnum (cost r))%Z ∧ Qden (cost r) = 1%positive.

Global Instance whole_cost_dec r : Decision (whole_cost r).
Proof. unfold whole_cost. apply _. Defined.

(** Whole numbers up to this bound are doubles, and so are their sums. *)
Definition double_limit : Z := 2 ^ 53.

(** Whole costs whose sum stays below the bound. *)
Definition whole_costs (rs : list row) : Prop :=
  Forall whole_cost rs ∧ (sum_cost rs < Qc_of_Z double_limit)%Qc.

Global Instance whole_costs_dec rs : Decision (whole_costs rs).
Proof. unfold whole_costs. apply _. Defined.

Fixpoint Zsum (zs : list Z) : Z :=
  match zs with
  | [] => 0
  | z :: zs => z + Zsum zs
  end.

Definition tagged_as (v : string) (r : row) : Prop := at_col r "Tagged" = Str v.

Global Instance tagged_as_dec v r : Decision (tagged_as v r).
Proof. unfold tagged_as. apply _. Defined.

(** One scored row: what the two scoring statements leave in a row. *)
Definition score_row (r : row) : row :=
  let n := Qc_of_nat (count_notna r tag_fields) in
  <["TagCompletenessPercentage" :=
      Num (n / Qc_of_nat (length tag_fields) * Qc_of_nat 100)%Qc]>
    (<["TagCompletenessScore" := Num n]> r).

Definition scored (df : DataFrame) : DataFrame :=
  {| columns := add_column (add_column (columns df) "TagCompletenessScore")
                  "TagCompletenessPercentage";
     rows := score_row <$> rows df |}.

(** What the body of the inner loop of [remediate] does to a row the mask
    selects, for one column; and what the whole inner loop leaves in it:
    the cell of every edit column the edited table has. *)
Definition write_step (ecols : list string) (e : row) (r : row) (col : string)
    : row :=
  if decide (col ∈ ecols) then <[col := at_col e col]> r else r.

Definition write_back (ecols : list string) (e : row) (r : row) : row :=
  foldl (write_step ecols e) r edit_columns.

(** The effect of one edited row [e] on a row [r] of the copy. *)
Definition apply_edit (ecols : list string) (e : row) (r : row) : row :=
  if cell_eq (at_col r "ResourceID") (at_col e "ResourceID")
  then write_back ecols e r else r.

(** The effect of all edited rows, first to last. *)
Definition apply_edits (ecols : list string) (es : list row) (r : row) : row :=
  foldl (λ r e, apply_edit ecols e r) r es.

Definition remediated (base edited_df : DataFrame) : DataFrame :=
  scored {| columns := columns base;
            rows := apply_edits (columns edited_df) (rows edited_df)
                    <$> rows base |}.

(** The edited row [e] bears the identifier of [r]. *)
Definition matches (r e : row) : Prop :=
  cell_eq (at_col r "ResourceID") (at_col e "ResourceID") = true.

(** [e] is the last of the edited rows [es] that bears the identifier of
    [r]. *)
Definition last_match (es : list row) (r e : row) : Prop :=
  ∃ es1 es2, es = es1 ++ e :: es2 ∧ matches r e ∧
             Forall (λ e', ¬ matches r e') es2.

(** A statement that writes to no object but the one at [l]. *)
Definition writes_only {A} (l : ref) (m : Py A) : Prop :=
  ∀ h a h', m h = Ok (a, h') → ∀ k, k ≠ l → h' !! k = h !! k.

(** A frame as pandas keeps it: distinct column names, and in every row
    one cell for each column and no other. *)
Definition rectangular (df : DataFrame) : Prop :=
  NoDup (columns df) ∧
  Forall (λ r : row, ∀ c, is_Some (r !! c) ↔ c ∈ columns df) (rows df).

(** A frame with the five tag columns whose two score columns hold what
    scoring would put there. *)
Definition tag_scored (df : DataFrame) : Prop :=
  tag_fields ⊆ columns df ∧
  "TagCompletenessScore" ∈ columns df ∧
  "TagCompletenessPercentage" ∈ columns df ∧
  Forall (λ r, score_row r = r) (rows df).

(** A cell that is not a string [load_data] reads as missing. *)
Definition read_as_written (v : cell) : Prop :=
  match v with
  | Str s => s ∉ load_na_values ++ STR_NA_VALUES
  | _ => True
  end.

Global Instance read_as_written_dec v : Decision (read_as_written v).
Proof. destruct v; apply _. Defined.

(** No string cell of the frame is one [load_data] reads as missing. *)
Definition reads_back (df : DataFrame) : Prop :=
  Forall (map_Forall (λ _ : string, read_as_written)) (rows df).

Global Instance reads_back_dec df : Decision (reads_back df).
Proof. unfold reads_back. apply _. Defined.

(** The ASCII letters of a string, in lower case. *)
Definition lower (a : Ascii.ascii) : Ascii.ascii :=
  let n := Ascii.nat_of_ascii a in
  if (65 <=? n) && (n <=? 90) then Ascii.ascii_of_nat (n + 32) else a.

Definition is_letter (a : Ascii.ascii) : bool :=
  let n := Ascii.nat_of_ascii (lower a) in (97 <=? n) && (n <=? 122).

Definition letters (s : string) : string :=
  String.string_of_list_ascii
    (lower <$> filter (λ a, is_letter a = true) (String.list_ascii_of_string s)).

(** Text [read_csv] may take for a number: no letter but the [e] of an
    exponent, or one of the words it reads as a float.  Text it may take
    for a truth value.  Both are wider than what pandas accepts. *)
Definition number_like (s : string) : bool :=
  bool_decide (letters s ∈ ["inf"; "infinity"; "nan"])
  || forallb (λ a, bool_decide (Ascii.nat_of_ascii a = 101))
       (String.list_ascii_of_string (letters s)).

Definition bool_like (s : string) : bool :=
  bool_decide (letters s ∈ ["true"; "false"]).

(** Whole numbers below this bound are written by [to_csv] digit by digit
    and read back exactly. *)
Definition csv_limit : Z := 10 ^ 15.

(** A cell that comes back from the CSV as the kind of cell it was: a
    string that cannot be taken for a number or a truth value, or a whole
    number below the bound. *)
Definition csv_stable_cell (v : cell) : Prop :=
  match v with
  | NaN => True
  | Str s => number_like s = false ∧ bool_like s = false
  | Num q => Qden q = 1%positive ∧ (Z.abs (Qnum q) < csv_limit)%Z
  end.

Global Instance csv_stable_cell_dec v : Decision (csv_stable_cell v).
Proof. destruct v; apply _. Defined.

(** A column that holds no string, or no number. *)
Definition typed_column (df : DataFrame) (c : string) : Prop :=
  Forall (λ r, is_str (at_col r c) = false) (rows df) ∨
  Forall (λ r, is_num (at_col r c) = false) (rows df).

Global Instance typed_column_dec df c : Decision (typed_column df c).
Proof. unfold typed_column. apply _. Defined.

(** A frame whose CSV [read_csv] types as the frame is typed: no column
    name is empty, no column holds strings and numbers, and every cell
    comes back as the kind of cell it was. *)
Definition csv_stable (df : DataFrame) : Prop :=
  (EmptyString ∉ columns df) ∧
  Forall (typed_column df) (columns df) ∧
  Forall (map_Forall (λ _ : string, csv_stable_cell)) (rows df).

Global Instance csv_stable_dec df : Decision (csv_stable df).
Proof. unfold csv_stable. apply _. Defined.

(** The frames the program makes: loaded from a table with distinct
    header names, or merged by [remediate] from such a frame that has the
    edit columns (as the page checks before it offers the editor). *)
Inductive produced : DataFrame → Prop :=
  | produced_load (raw : RawTable) (df : DataFrame) :
      NoDup (headers raw) → load_data raw = Ok df → produced df
  | produced_merge (base edited_df df : DataFrame) (l out : ref)
        (h h' : store) :
      produced base →
      edit_columns ⊆ columns base →
      h !! l = Some base →
      remediate l edited_df h = Ok (out, h') →
      h' !! out = Some df →
      produced df.

(** The cells of row [i] of a frame in the given columns ([df.iloc[i]]
    read at those labels); no cells when the frame has no such row. *)
Definition cells_at (df : DataFrame) (i : nat) (cs : list string) : list cell :=
  match rows df !! i with
  | Some r => at_col r <$> cs
  | None => []
  end.

(** A row with a number that is not negative as its cost. *)
Definition nonneg_cost (r : row) : Prop :=
  match at_col r "MonthlyCostUSD" with
  | Num q => (0 ≤ q)%Qc
  | _ => False
  end.

Global Instance nonneg_cost_dec r : Decision (nonneg_cost r).
Proof. unfold nonneg_cost. destruct (at_col r "MonthlyCostUSD"); apply _. Defined.

(** A row passes the filter of column [c]: nothing was chosen ([All]), or
    the cell equals the choice. *)
Definition passes (selected : cell) (c : string) (r : row) : Prop :=
  selected = Str "All" ∨ cell_eq (at_col r c) selected = true.

Global Instance passes_dec selected c r : Decision (passes selected c r).
Proof. unfold passes. apply _. Defined.

(** A row passes the four filters. *)
Definition selects (sel : Selection) (r : row) : Prop :=
  passes (selected_service sel) "Service" r ∧
  passes (selected_region sel) "Region" r ∧
  passes (selected_department sel) "Department" r ∧
  passes (selected_environment sel) "Environment" r.

Global Instance selects_dec sel r : Decision (selects sel r).
Proof. unfold selects. apply _. Defined.

(** The columns a selection reads: those with a choice other than [All]. *)
Definition filtered_columns (sel : Selection) : list string :=
  (if decide (selected_service sel ≠ Str "All") then ["Service"] else []) ++
  (if decide (selected_region sel ≠ Str "All") then ["Region"] else []) ++
  (if decide (selected_department sel ≠ Str "All") then ["Department"] else []) ++
  (if decide (selected_environment sel ≠ Str "All") then ["Environment"] else []).

(** No two different rows of the frame bear the same identifier. *)
Definition distinct_identifiers (df : DataFrame) : Prop :=
  Forall (λ r, Forall (λ r', matches r r' → r = r') (rows df)) (rows df).

Global Instance matches_dec r e : Decision (matches r e).
Proof. unfold matches. apply _. Defined.

Global Instance distinct_identifiers_dec df : Decision (distinct_identifiers df).
Proof. unfold distinct_identifiers. apply _. Defined.

(** ** Example data *)

Definition schema : list string :=
  ["ResourceID"; "Service"; "Region"; "MonthlyCostUSD"; "Tagged";
   "Department"; "Project"; "Environment"; "Owner"; "CostCenter"].

Definition record_R1 : list field :=
  [Text "R1"; Text "EC2"; Text "us-east-1"; Number (Qc_of_nat 100);
   Text "No"; Text EmptyString; Text "Atlas"; Text "Dev"; Text " ";
   Text "CC1"].

Definition inventory : RawTable :=
  {| headers := schema;
     records := [
       record_R1;
       [Text "R2"; Text "S3"; Text "us-west-2"; Number (Qc_of_nat 50);
        Text "Yes"; Text "Eng"; Text "Atlas"; Text "Prod"; Text "Bob"; Text "CC2"];
       [Text "R3"; Text "RDS"; Text "us-west-2"; Number (Qc_of_nat 25);
        Text "Pending"; Text "Ops"; Text EmptyString; Text "Test";
        Text EmptyString; Text EmptyString]
     ] |}.

Definition loaded_inventory : DataFrame :=
  match load_data inventory with
  | Ok df => df
  | Raise _ => {| columns := []; rows := [] |}
  end.

(** The columns the specification calls required.  The source has no such
    list: it is here to state what [load_data] does when one is absent. *)
Definition required_columns : list string :=
  ["ResourceID"; "MonthlyCostUSD"; "Tagged"; "Service"; "Region"].

(** A table with the identifier and the five tag columns only. *)
Definition tags_only : RawTable :=
  {| headers := ["ResourceID"; "Department"; "Project"; "Environment";
                 "Owner"; "CostCenter"];
     records := [[Text "R1"; Text "Eng"; Text EmptyString; Text "Prod"; Text "Bob";
                  Text "CC1"]] |}.

(** A table that lacks the [Owner] column. *)
Definition no_owner : RawTable :=
  {| headers := ["ResourceID"; "Service"; "Region"; "MonthlyCostUSD"; "Tagged";
                 "Department"; "Project"; "Environment"; "CostCenter"];
     records := [[Text "R1"; Text "EC2"; Text "us-east-1";
                  Number (Qc_of_nat 100); Text "No"; Text "Eng"; Text EmptyString;
                  Text "Prod"; Text "CC1"]] |}.

(** Python's [str.isspace] on ASCII: space, tab, line feed, vertical tab,
    form feed, carriage return. *)
Definition is_space (a : Ascii.ascii) : bool :=
  bool_decide (Ascii.nat_of_ascii a ∈ [32; 9; 10; 11; 12; 13]).

(** A string with nothing but whitespace in it (the empty string too). *)
Definition whitespace_only (s : string) : bool :=
  forallb is_space (String.list_ascii_of_string s).

(** One resource whose [Department] is two spaces and whose other tags are
    empty. *)
Definition padded : RawTable :=
  {| headers := schema;
     records := [[Text "R1"; Text "EC2"; Text "us-east-1";
                  Number (Qc_of_nat 100); Text "No"; Text "  "; Text EmptyString;
                  Text EmptyString; Text " "; Text EmptyString]] |}.

(** The loaded inventory as the only object of a session. *)
Definition session : store := {[ 1%positive := loaded_inventory ]}.

(** The editor's table after the operator has tagged [R1]. *)
Definition edits_R1 : DataFrame :=
  {| columns := edit_columns;
     rows := [ {[ "ResourceID" := Str "R1"; "Service" := Str "EC2";
                  "Region" := Str "us-east-1"; "Department" := Str "Eng";
                  "Project" := Str "Atlas"; "Environment" := Str "Dev";
                  "Owner" := Str "Ann"; "CostCenter" := Str "CC1";
                  "MonthlyCostUSD" := Num (Qc_of_nat 100);
                  "Tagged" := Str "Yes" ]} ] |}.

Definition merged_R1 : DataFrame := remediated loaded_inventory edits_R1.

(** An edited table with an [Environment] and a [Tagged] value outside the
    option lists of the editor. *)
Definition edit_staging : row :=
  {[ "ResourceID" := Str "R1"; "Service" := Str "EC2";
     "Region" := Str "us-east-1"; "Department" := Str "Eng";
     "Project" := Str "Atlas"; "Environment" := Str "Staging";
     "Owner" := Str "Ann"; "CostCenter" := Str "CC1";
     "MonthlyCostUSD" := Num (Qc_of_nat 100);
     "Tagged" := Str "Maybe" ]}.

Definition edits_staging : DataFrame :=
  {| columns := edit_columns; rows := [edit_staging] |}.

Definition merged_staging : DataFrame :=
  remediated loaded_inventory edits_staging.

(** Two resources entered under one identifier: a tagged bucket and an
    untagged instance. *)
Definition shared_id : RawTable :=
  {| headers := schema;
     records := [
       [Text "R1"; Text "S3"; Text "us-west-2"; Number (Qc_of_nat 50);
        Text "Yes"; Text "Eng"; Text "Atlas"; Text "Prod"; Text "Bob"; Text "CC2"];
       [Text "R1"; Text "EC2"; Text "us-east-1"; Number (Qc_of_nat 100);
        Text "No"; Text EmptyString; Text "Atlas"; Text "Dev";
        Text EmptyString; Text "CC1"]
     ] |}.

Definition loaded_shared_id : DataFrame :=
  match load_data shared_id with
  | Ok df => df
  | Raise _ => {| columns := []; rows := [] |}
  end.

Definition session_shared_id : store := {[ 1%positive := loaded_shared_id ]}.

(** What the editor is given for that frame, and returns when the operator
    changes nothing: the untagged rows. *)
Definition untouched_shared_id : DataFrame :=
  {| columns := edit_columns;
     rows := filter (tagged_as "No") (rows loaded_shared_id) |}.

Definition merged_shared_id : DataFrame :=
  remediated loaded_shared_id untouched_shared_id.




(** An edited table that carries another [Service] for [R1]. *)
Definition edits_service : DataFrame :=
  {| columns := edit_columns;
     rows := [ {[ "ResourceID" := Str "R1"; "Service" := Str "Lambda";
                  "Region" := Str "us-east-1"; "Department" := Str "Eng";
                  "Project" := Str "Atlas"; "Environment" := Str "Dev";
                  "Owner" := Str "Ann"; "CostCenter" := Str "CC1";
                  "MonthlyCostUSD" := Num (Qc_of_nat 100);
                  "Tagged" := Str "Yes" ]} ] |}.

Definition merged_service : DataFrame :=
  remediated loaded_inventory edits_service.

Definition loaded_padded : DataFrame :=
  match load_data padded with
  | Ok df => df
  | Raise _ => {| columns := []; rows := [] |}
  end.

(** The operator chooses [us-west-2] and leaves the other boxes alone. *)
Definition west_only : Selection :=
  {| selected_service := Str "All"; selected_region := Str "us-west-2";
     selected_department := Str "All"; selected_environment := Str "All" |}.


Definition west_view : DataFrame :=
  {| columns := columns loaded_inventory;
     rows := filter (selects west_only) (rows loaded_inventory) |}.

(** A column with a string in one row and a number in another. *)
Definition mixed_column (df : DataFrame) (c : string) : Prop :=
  ∃ r1 r2 s q, r1 ∈ rows df ∧ r2 ∈ rows df ∧
               at_col r1 c = Str s ∧ at_col r2 c = Num q.

(** A frame whose [Owner] is a string in one row and a number in another. *)
Definition mixed_owner : DataFrame :=
  {| columns := ["ResourceID"; "Owner"];
     rows := [ {[ "ResourceID" := Str "R1"; "Owner" := Str "Bob" ]};
               {[ "ResourceID" := Str "R2"; "Owner" := Num (Qc_of_nat 7) ]} ] |}.

(** The metrics of that view. *)
Definition west_metrics : Metrics :=
  match calculate_metrics west_view with
  | Ok m => m
  | Raise _ =>
      {| total_resources := 0; tagged_resources := 0; untagged_resources := 0;
         tagging_rate := 0; total_cost := 0; tagged_cost := 0;
         untagged_cost := 0; untagged_cost_pct := 0;
         avg_completeness := None |}
  end.

(** A column the frame has, with no string in it: what [sum] and [mean]
    can add up. *)
Definition summable (df : DataFrame) (c : string) : Prop :=
  c ∈ columns df ∧ Forall (λ r, is_str (at_col r c) = false) (rows df).

Global Instance summable_dec df c : Decision (summable df c).
Proof. unfold summable. apply _. Defined.

(** An edited table without the identifier column. *)
Definition edits_without_id : DataFrame :=
  {| columns := ["Owner"]; rows := [ {[ "Owner" := Str "Ann" ]} ] |}.

(** An edited table with no row. *)
Definition no_edits : DataFrame := {| columns := edit_columns; rows := [] |}.

(** A frame in which every resource is tagged. *)
Definition all_tagged : DataFrame :=
  {| columns := columns loaded_inventory;
     rows := filter (tagged_as "Yes") (rows loaded_inventory) |}.

(** The double nearest to a decimal, as [read_csv] parses it. *)
Definition double (q : Q) : Qc := round64 (Q2Qc q).

(** Three resources that cost 0.05, 0.01 and 0.1; the first and the last
    are tagged. *)
Definition cents : RawTable :=
  {| headers := schema;
     records := [
       [Text "R1"; Text "EC2"; Text "us-east-1"; Number (double (5 # 100));
        Text "Yes"; Text "Eng"; Text "Atlas"; Text "Prod"; Text "Ann"; Text "CC1"];
       [Text "R2"; Text "S3"; Text "us-west-2"; Number (double (1 # 100));
        Text "No"; Text "Eng"; Text "Atlas"; Text "Prod"; Text "Bob"; Text "CC2"];
       [Text "R3"; Text "RDS"; Text "us-west-2"; Number (double (1 # 10));
        Text "Yes"; Text "Ops"; Text "Atlas"; Text "Test"; Text "Cho"; Text "CC3"]
     ] |}.

Definition loaded_cents : DataFrame :=
  match load_data cents with
  | Ok df => df
  | Raise _ => {| columns := []; rows := [] |}
  end.

Definition metrics_or_zero (df : DataFrame) : Metrics :=
  match calculate_metrics df with
  | Ok m => m
  | Raise _ =>
      {| total_resources := 0; tagged_resources := 0; untagged_resources := 0;
         tagging_rate := 0; total_cost := 0; tagged_cost := 0;
         untagged_cost := 0; untagged_cost_pct := 0;
         avg_completeness := None |}
  end.

(** * Properties *)

(** ** Reasoning about results *)

Lemma bind_Ok {A B} (f : A → result B) (m : result A) (b : B) :
  m ≫= f = Ok b ↔ ∃ a, m = Ok a ∧ f a = Ok b.
Proof.
  destruct m as [a|e]; simpl; split.
  - intros H. by exists a.
  - by intros (a' & [= <-] & H).
  - done.
  - by intros (a' & [=] & _).
Qed.

(** Membership in a literal list, by evaluation. *)
Ltac elem_tac := by (apply (bool_decide_unpack _); vm_compute).

(** A conjunction of such facts. *)
Ltac elems_tac :=
  repeat match goal with |- _ ∧ _ => split end; elem_tac.

Ltac inv_result :=
  repeat match goal with
  | H : _ ≫= _ = Ok _ |- _ => apply bind_Ok in H; destruct H as (? & ? & H)
  | H : Ok _ = Ok _ |- _ => injection H as H
  | H : Raise _ = Ok _ |- _ => discriminate H
  end.

(** ** Masks and sums *)

Lemma cell_eq_Str (t : cell) (v : string) : cell_eq t (Str v) = true ↔ t = Str v.
Proof.
  destruct t as [|s|q]; simpl; try (split; [done|discriminate]); try (split; done).
  rewrite bool_decide_eq_true. split; [by intros ->|by intros [= ->]].
Qed.

Lemma getmask_rows (df : DataFrame) (f : row → bool) :
  rows (getmask df (f <$> rows df)) = filter (λ r, f r = true) (rows df).
Proof.
  unfold getmask. cbn [rows]. induction (rows df) as [|r l IH]; [done|].
  rewrite fmap_cons. cbn [zip zip_with]. fold (zip l (f <$> l)).
  rewrite !filter_cons. cbn [snd].
  destruct (decide (f r = true)) as [Hr|Hr]; [rewrite fmap_cons|]; by rewrite IH.
Qed.

Lemma where_tagged_Ok (df sub : DataFrame) (v : string) :
  where_tagged df v = Ok sub →
  columns sub = columns df ∧
  rows sub = filter (λ r, at_col r "Tagged" = Str v) (rows df).
Proof.
  unfold where_tagged, getitem. intros H.
  destruct (decide ("Tagged" ∈ columns df)); simpl in H; [|done].
  injection H as <-. split; [done|].
  rewrite <-list_fmap_compose.
  etrans; [apply (getmask_rows df (λ r, cell_eq (at_col r "Tagged") (Str v)))|].
  apply list_filter_iff. intros r. apply cell_eq_Str.
Qed.

Lemma fill_missing_Ok (rs : list row) (c : string) (vs : list Qc) :
  fill_missing ((λ r, at_col r c) <$> rs) = Ok vs →
  vs = (λ r, value_of (at_col r c)) <$> rs.
Proof.
  revert vs. induction rs as [|r rs IH]; intros vs; simpl.
  - by intros [= <-].
  - destruct (at_col r c) as [|s|q]; simpl; [|done|];
      intros H; inv_result; subst vs; f_equal; by apply IH.
Qed.

Lemma series_sum_Ok (rs : list row) (c : string) (t : Qc) :
  series_sum ((λ r, at_col r c) <$> rs) = Ok t →
  t = pairwise_sum ((λ r, value_of (at_col r c)) <$> rs).
Proof.
  unfold series_sum. intros H. inv_result. subst t.
  by match goal with H : fill_missing _ = _ |- _ =>
       apply fill_missing_Ok in H as -> end.
Qed.

Lemma column_sum_Ok (df : DataFrame) (t : Qc) :
  getitem df "MonthlyCostUSD" ≫= series_sum = Ok t →
  t = double_sum_cost (rows df).
Proof.
  intros H. inv_result. unfold getitem in *. case_decide; [|done].
  inv_result. subst. by apply series_sum_Ok in H.
Qed.

(** What [calculate_metrics] returns, field by field. *)
Lemma calculate_metrics_Ok (df : DataFrame) (m : Metrics) :
  calculate_metrics df = Ok m →
  total_resources m = length (rows df) ∧
  tagged_resources m = length (filter (tagged_as "Yes") (rows df)) ∧
  untagged_resources m = length (filter (tagged_as "No") (rows df)) ∧
  total_cost m = double_sum_cost (rows df) ∧
  tagged_cost m = double_sum_cost (filter (tagged_as "Yes") (rows df)) ∧
  untagged_cost m = double_sum_cost (filter (tagged_as "No") (rows df)).
Proof.
  unfold calculate_metrics. intros H.
  apply bind_Ok in H as (yes & Hyes & H).
  apply bind_Ok in H as (no & Hno & H).
  apply bind_Ok in H as (tc & Htc & H).
  apply bind_Ok in H as (yes' & Hyes' & H).
  apply bind_Ok in H as (yc & Hyc & H).
  apply bind_Ok in H as (no' & Hno' & H).
  apply bind_Ok in H as (nc & Hnc & H).
  apply bind_Ok in H as (avg & Havg & H).
  injection H as <-. simpl.
  apply where_tagged_Ok in Hyes as [_ Hyes], Hno as [_ Hno].
  apply where_tagged_Ok in Hyes' as [_ Hyes'], Hno' as [_ Hno'].
  apply column_sum_Ok in Htc, Hyc, Hnc.
  rewrite Hyes, Hno. rewrite Hyes' in Hyc. rewrite Hno' in Hnc.
  done.
Qed.

Lemma filter_tagged_split (rs : list row) :
  length (filter (tagged_as "Yes") rs) + length (filter (tagged_as "No") rs)
  + length (filter (λ r, ¬ tagged_as "Yes" r ∧ ¬ tagged_as "No" r) rs)
  = length rs.
Proof.
  induction rs as [|r rs IH]; [done|].
  rewrite !filter_cons.
  repeat case_decide; simpl; try lia; exfalso; unfold tagged_as in *;
    try congruence; tauto.
Qed.

Lemma sum_cost_split (rs : list row) :
  Forall (λ r, 0 ≤ cost r)%Qc rs →
  (sum_cost (filter (tagged_as "Yes") rs) + sum_cost (filter (tagged_as "No") rs)
   ≤ sum_cost rs)%Qc.
Proof.
  induction 1 as [|r rs Hr Hrs IH]; [done|].
  rewrite !filter_cons.
  repeat case_decide; simpl; try (unfold tagged_as in *; congruence).
  - rewrite <-Qcplus_assoc. by apply Qcplus_le_mono_l.
  - rewrite Qcplus_assoc, (Qcplus_comm _ (cost r)), <-Qcplus_assoc.
    by apply Qcplus_le_mono_l.
  - rewrite <-(Qcplus_0_l (_ + _)). by apply Qcplus_le_compat.
Qed.

(** ** Scoring *)

Lemma filter_ext_elem {A} (P Q : A → Prop) `{!∀ x, Decision (P x)}
    `{!∀ x, Decision (Q x)} (l : list A) :
  (∀ x, x ∈ l → P x ↔ Q x) → filter P l = filter Q l.
Proof.
  induction l as [|x l IH]; intros Hl; [done|].
  rewrite !filter_cons.
  assert (P x ↔ Q x) as Hx by (apply Hl; left).
  rewrite IH by (intros y Hy; apply Hl; by right).
  destruct (decide (P x)), (decide (Q x)); tauto.
Qed.

Lemma filter_none {A} (P : A → Prop) `{!∀ x, Decision (P x)} (l : list A) :
  (∀ x, x ∈ l → ¬ P x) → filter P l = [].
Proof.
  induction l as [|x l IH]; intros Hl; [done|].
  rewrite filter_cons, decide_False by (apply Hl; left).
  apply IH. intros y Hy. apply Hl. by right.
Qed.

Lemma zip_with_fmap_same {A B C} (f : A → B → C) (g : A → B) (l : list A) :
  zip_with f l (g <$> l) = (λ x, f x (g x)) <$> l.
Proof.
  induction l as [|x l IH]; [done|].
  rewrite !fmap_cons. cbn [zip_with]. by rewrite IH.
Qed.

Lemma series_map_Num {A} (f : Qc → Qc) (g : A → Qc) (l : list A) :
  series_map f ((λ x, Num (g x)) <$> l) = Ok ((λ x, Num (f (g x))) <$> l).
Proof.
  unfold series_map. induction l as [|x l IH]; [done|].
  rewrite fmap_cons. cbn [mapM]. rewrite IH. done.
Qed.

Lemma at_col_filter_keys (r : row) (cs : list string) (c : string) :
  c ∈ cs → at_col (filter (λ kv, kv.1 ∈ cs) r) c = at_col r c.
Proof.
  intros Hc. unfold at_col. f_equal.
  destruct (r !! c) as [v|] eqn:E.
  - by apply map_lookup_filter_Some.
  - apply map_lookup_filter_None. by left.
Qed.

Lemma count_notna_filter_keys (r : row) (cs : list string) :
  count_notna (filter (λ kv, kv.1 ∈ cs) r) cs = count_notna r cs.
Proof.
  unfold count_notna. f_equal. apply filter_ext_elem.
  intros c Hc. by rewrite at_col_filter_keys.
Qed.

Lemma elem_of_add_column (cols : list string) (c x : string) :
  x ∈ add_column cols c ↔ x ∈ cols ∨ x = c.
Proof.
  unfold add_column. case_decide; [split; [by left|by intros [?| ->]]|].
  rewrite elem_of_app, list_elem_of_singleton. done.
Qed.

Lemma NoDup_add_column (cols : list string) (c : string) :
  NoDup cols → NoDup (add_column cols c).
Proof.
  intros H. unfold add_column. case_decide; [done|].
  apply NoDup_app. split; [done|]. split; [|apply NoDup_singleton].
  intros x Hx ->%list_elem_of_singleton. done.
Qed.

Lemma at_col_insert (r : row) (c : string) (v : cell) :
  at_col (<[c := v]> r) c = v.
Proof. unfold at_col. by rewrite lookup_insert_eq. Qed.

Lemma at_col_insert_ne (r : row) (c c' : string) (v : cell) :
  c ≠ c' → at_col (<[c := v]> r) c' = at_col r c'.
Proof. intros Hne. unfold at_col. by rewrite lookup_insert_ne. Qed.

Lemma setitem_fmap (df : DataFrame) (c : string) (g : row → cell) :
  setitem df c (g <$> rows df) =
    {| columns := add_column (columns df) c;
       rows := (λ r, <[c := g r]> r) <$> rows df |}.
Proof. unfold setitem. by rewrite zip_with_fmap_same. Qed.

Lemma notna_sum_tags (df : DataFrame) :
  notna_sum_axis1
    {| columns := tag_fields;
       rows := (λ r, filter (λ kv, kv.1 ∈ tag_fields) r) <$> rows df |} =
  (λ r, Num (Qc_of_nat (count_notna r tag_fields))) <$> rows df.
Proof.
  unfold notna_sum_axis1. cbn [columns rows]. rewrite <-list_fmap_compose.
  apply list_fmap_ext. intros i r _. unfold compose.
  by rewrite count_notna_filter_keys.
Qed.

(** [score_tags] either scores every row or names the tag columns the
    frame lacks. *)
Lemma score_tags_spec (df : DataFrame) :
  score_tags df =
    match filter (λ c, c ∉ columns df) tag_fields with
    | [] => Ok (scored df)
    | missing => Raise (KeyError missing)
    end.
Proof.
  unfold score_tags, getitems.
  destruct (filter (λ c, c ∉ columns df) tag_fields) as [|c0 cs]; [|done].
  cbn [mbind result_bind]. rewrite notna_sum_tags, setitem_fmap.
  unfold getitem. cbn [columns rows].
  rewrite decide_True by (apply elem_of_add_column; by right).
  cbn [mbind result_bind]. rewrite <-list_fmap_compose.
  rewrite (list_fmap_ext _ (λ r, Num (Qc_of_nat (count_notna r tag_fields))))
    by (intros i r _; unfold compose; apply at_col_insert).
  rewrite series_map_Num. cbn [mbind result_bind].
  rewrite series_map_Num. cbn [mbind result_bind].
  unfold scored, setitem. cbn [columns rows]. f_equal. f_equal.
  rewrite zip_with_fmap_l, zip_with_fmap_same. done.
Qed.

Lemma count_notna_score_row (r : row) :
  count_notna (score_row r) tag_fields = count_notna r tag_fields.
Proof.
  unfold count_notna. f_equal. apply filter_ext_elem. intros c Hc.
  unfold score_row. rewrite !at_col_insert_ne; [done| |]; intros <-;
    apply (bool_decide_pack _) in Hc; by vm_compute in Hc.
Qed.

Lemma score_row_score (r : row) :
  at_col (score_row r) "TagCompletenessScore"
  = Num (Qc_of_nat (count_notna (score_row r) tag_fields)).
Proof.
  rewrite count_notna_score_row. unfold score_row.
  rewrite at_col_insert_ne by done. apply at_col_insert.
Qed.

Lemma score_row_percentage (r : row) :
  at_col (score_row r) "TagCompletenessPercentage"
  = Num (Qc_of_nat (count_notna (score_row r) tag_fields)
         / Qc_of_nat 5 * Qc_of_nat 100)%Qc.
Proof. rewrite count_notna_score_row. apply at_col_insert. Qed.

(** ** Duplicates *)

Section keep_first.
Context {A : Type} `{EqDecision A}.
Implicit Types l : list A.

Lemma elem_of_keep_first l x : x ∈ keep_first l ↔ x ∈ l.
Proof.
  induction l as [|y l IH]; [done|]. cbn [keep_first].
  rewrite !elem_of_cons, list_elem_of_filter, IH.
  destruct (decide (x = y)); tauto.
Qed.

Lemma NoDup_keep_first l : NoDup (keep_first l).
Proof.
  induction l as [|y l IH]; [constructor|]. cbn [keep_first].
  constructor; [|by apply NoDup_filter].
  rewrite list_elem_of_filter. by intros [Hne _].
Qed.

Lemma filter_all (P : A → Prop) `{!∀ x, Decision (P x)} l :
  (∀ x, x ∈ l → P x) → filter P l = l.
Proof.
  induction l as [|y l IH]; intros Hl; [done|].
  rewrite filter_cons, decide_True by (apply Hl; left).
  f_equal. apply IH. intros x Hx. apply Hl. by right.
Qed.

End keep_first.

(** ** Records under a header *)

Lemma lookup_zip_map (hs : list string) (vs : list cell) (i : nat) (c : string) :
  NoDup hs → length vs = length hs → hs !! i = Some c →
  (list_to_map (zip hs vs) : row) !! c = vs !! i.
Proof.
  intros Hnd Hlen Hi.
  destruct (vs !! i) as [v|] eqn:Hv.
  - apply elem_of_list_to_map_1; [by rewrite fst_zip by lia|].
    apply (list_elem_of_lookup_2 _ i). by apply lookup_zip_Some.
  - apply lookup_ge_None in Hv. apply lookup_lt_Some in Hi. lia.
Qed.

Lemma lookup_zip_map_None (hs : list string) (vs : list cell) (c : string) :
  c ∉ hs → (list_to_map (zip hs vs) : row) !! c = None.
Proof.
  intros Hc. apply not_elem_of_list_to_map_1. intros Hin. apply Hc.
  apply list_elem_of_fmap in Hin as ([c' v] & -> & Hin).
  by apply elem_of_zip_l in Hin.
Qed.

Lemma read_record_lookup hs na fs i c :
  NoDup hs → hs !! i = Some c →
  read_record hs na fs !! c = Some (default NaN (read_field na <$> fs !! i)).
Proof.
  intros Hnd Hi. unfold read_record.
  rewrite (lookup_zip_map _ _ i) by (done || apply length_resize).
  pose proof (lookup_lt_Some _ _ _ Hi) as Hlt.
  destruct (fs !! i) as [f|] eqn:Hf; cbn [fmap option_fmap option_map default].
  - rewrite lookup_resize; [by rewrite list_lookup_fmap, Hf|done|].
    rewrite length_fmap. by eapply lookup_lt_Some.
  - apply lookup_ge_None in Hf. rewrite lookup_resize_new; [done| |done].
    by rewrite length_fmap.
Qed.

Lemma read_record_lookup_None hs na fs c :
  c ∉ hs → read_record hs na fs !! c = None.
Proof. apply lookup_zip_map_None. Qed.

(** What [load_data] does, in one equation. *)
Lemma load_data_spec (raw : RawTable) :
  load_data raw =
    if decide (Forall (λ fs, length fs ≤ length (headers raw)) (records raw))
    then match filter (λ c, c ∉ headers raw) tag_fields with
         | [] => Ok (scored
                  {| columns := headers raw;
                     rows := keep_first
                       (read_record (headers raw) load_na_values <$> records raw) |})
         | missing => Raise (KeyError missing)
         end
    else Raise ParserError.
Proof.
  unfold load_data, read_csv. case_decide; [|done].
  cbn [mbind result_bind]. by rewrite score_tags_spec.
Qed.

(** ** Statements and the store *)

Lemma Py_bind_Ok {A B} (f : A → Py B) (m : Py A) (h h' : store) (b : B) :
  (m ≫= f) h = Ok (b, h') ↔ ∃ a h1, m h = Ok (a, h1) ∧ f a h1 = Ok (b, h').
Proof.
  unfold mbind, Py_bind. destruct (m h) as [[a h1]|e]; split.
  - intros H. by exists a, h1.
  - by intros (a' & h1' & [= <- <-] & H).
  - done.
  - by intros (a' & h1' & [=] & _).
Qed.

Lemma lift_Ok {A} (m : result A) (h h' : store) (a : A) :
  lift m h = Ok (a, h') ↔ m = Ok a ∧ h' = h.
Proof.
  unfold lift. destruct m as [a'|e]; split.
  - by intros [= -> ->].
  - by intros [[= ->] ->].
  - done.
  - by intros [[=] _].
Qed.

Lemma deref_Ok (l : ref) (h h' : store) (d : DataFrame) :
  deref l h = Ok (d, h') ↔ h !! l = Some d ∧ h' = h.
Proof.
  unfold deref. destruct (h !! l) as [d'|]; split.
  - by intros [= -> ->].
  - by intros [[= ->] ->].
  - done.
  - by intros [[=] _].
Qed.

Lemma update_Ok (l : ref) (f : DataFrame → result DataFrame) (h h' : store) u :
  update l f h = Ok (u, h') ↔
  ∃ d d', h !! l = Some d ∧ f d = Ok d' ∧ h' = <[l := d']> h.
Proof.
  unfold update. destruct (h !! l) as [d|]; [destruct (f d) as [d'|e] eqn:E|];
    split.
  - intros [= <-]. by exists d, d'.
  - intros (d0 & d0' & [= <-] & Hf & ->). rewrite E in Hf.
    injection Hf as <-. by destruct u.
  - done.
  - intros (d0 & d0' & [= <-] & Hf & _). by rewrite E in Hf.
  - done.
  - by intros (d0 & d0' & [=] & _).
Qed.

Lemma writes_only_ret {A} (l : ref) (a : A) : writes_only l (mret a).
Proof. by intros h a' h' [= _ <-]. Qed.

Lemma writes_only_lift {A} (l : ref) (m : result A) : writes_only l (lift m).
Proof. intros h a h' [_ ->]%lift_Ok. done. Qed.

Lemma writes_only_deref (l k : ref) : writes_only l (deref k).
Proof. intros h a h' [_ ->]%deref_Ok. done. Qed.

Lemma writes_only_update (l : ref) (f : DataFrame → result DataFrame) :
  writes_only l (update l f).
Proof.
  intros h a h' (d & d' & _ & _ & ->)%update_Ok k Hk.
  by rewrite lookup_insert_ne.
Qed.

Lemma writes_only_bind {A B} (l : ref) (m : Py A) (f : A → Py B) :
  writes_only l m → (∀ a, writes_only l (f a)) → writes_only l (m ≫= f).
Proof.
  intros Hm Hf h b h' (a & h1 & H1 & H2)%Py_bind_Ok k Hk.
  rewrite (Hf a _ _ _ H2 k Hk). by apply (Hm _ _ _ H1).
Qed.

Lemma writes_only_for_each {A} (l : ref) (xs : list A) (body : A → Py unit) :
  (∀ x, writes_only l (body x)) → writes_only l (for_each xs body).
Proof.
  intros Hbody. induction xs as [|x xs IH]; cbn [for_each].
  - apply writes_only_ret.
  - apply writes_only_bind; [apply Hbody|]. by intros _.
Qed.

(** The loops of [remediate] and its scoring write to the copy only. *)
Lemma remediate_body_writes_only (l : ref) (edited_df : DataFrame) :
  writes_only l
    (for_each (rows edited_df) (λ row,
       ids ← deref l ≫= (λ d, lift (getitem d "ResourceID"));
       rid ← lift (row_item (columns edited_df) row "ResourceID");
       let mask := (λ v, cell_eq v rid) <$> ids in
       for_each edit_columns (λ col,
         if decide (col ∈ columns edited_df)
         then v ← lift (row_item (columns edited_df) row col);
              update l (λ d, Ok (loc_set d mask col v))
         else mret ()));;
     update l score_tags;;
     mret l).
Proof.
  apply writes_only_bind; [|intros _; apply writes_only_bind;
    [apply writes_only_update|intros _; apply writes_only_ret]].
  apply writes_only_for_each. intros e.
  apply writes_only_bind.
  { apply writes_only_bind; [apply writes_only_deref|].
    intros d. apply writes_only_lift. }
  intros ids. apply writes_only_bind; [apply writes_only_lift|].
  intros rid. cbn zeta. apply writes_only_for_each. intros col.
  case_decide; [|apply writes_only_ret].
  apply writes_only_bind; [apply writes_only_lift|].
  intros v. apply writes_only_update.
Qed.

Lemma copy_Ok (l l' : ref) (h h' : store) :
  copy l h = Ok (l', h') ↔
  ∃ d, h !! l = Some d ∧ l' = fresh (dom h) ∧ h' = <[l' := d]> h.
Proof.
  unfold copy. rewrite Py_bind_Ok. split.
  - intros (d & h1 & [Hd ->]%deref_Ok & Hnew). unfold new in Hnew.
    injection Hnew as <- <-. by exists d.
  - intros (d & Hd & -> & ->). exists d, h. by rewrite deref_Ok.
Qed.

Lemma fresh_ref_unused (h : store) : h !! fresh (dom h) = None.
Proof. apply not_elem_of_dom, is_fresh. Qed.

(** ** The write-back, row by row *)

(** The inner loop over a list [cols] of columns the frame has: the rows
    the mask selects receive the edited cells, the others stay. *)
Lemma write_columns (l : ref) (ecols : list string) (e : row)
    (cs cols : list string) (rows0 : list row)
    (p : row → bool) (g : row → row) (h : store) :
  cols ⊆ cs →
  h !! l = Some {| columns := cs; rows := g <$> rows0 |} →
  for_each cols (λ col,
    if decide (col ∈ ecols)
    then v ← lift (row_item ecols e col);
         update l (λ d, Ok (loc_set d (p <$> rows0) col v))
    else mret ()) h
  = Ok ((), <[l := {| columns := cs;
                      rows := (λ r, if p r
                                    then foldl (write_step ecols e) (g r) cols
                                    else g r) <$> rows0 |}]> h).
Proof.
  revert g h. induction cols as [|col cols IH]; intros g h Hsub Hl.
  - cbn [for_each foldl]. unfold mret, Py_ret. do 2 f_equal.
    symmetry. apply insert_id. rewrite Hl.
    apply (f_equal (λ rs, Some {| columns := cs; rows := rs |})).
    apply list_fmap_ext. intros i r _. by destruct (p r).
  - cbn [for_each].
    assert (col ∈ cs) as Hcol by (apply Hsub; left).
    assert (cols ⊆ cs) as Hsub' by (intros x Hx; apply Hsub; by right).
    unfold mbind at 1, Py_bind at 1.
    destruct (decide (col ∈ ecols)) as [Hin|Hout].
    + unfold mbind at 1, Py_bind at 1. unfold lift at 1, row_item.
      rewrite decide_True by done. unfold update at 1. rewrite Hl.
      set (g' := λ r, if p r then <[col := at_col e col]> (g r) else g r).
      assert (loc_set {| columns := cs; rows := g <$> rows0 |}
                (p <$> rows0) col (at_col e col)
              = {| columns := cs; rows := g' <$> rows0 |}) as ->.
      { unfold loc_set, add_column. cbn [columns rows].
        rewrite decide_True by done. f_equal.
        rewrite zip_with_fmap_l, zip_with_fmap_same.
        apply list_fmap_ext. intros i r _. unfold g'.
        by rewrite decide_True by done. }
      rewrite (IH g') by (done || apply lookup_insert_eq).
      rewrite insert_insert_eq.
      apply (f_equal (λ rs, Ok ((), <[l := {| columns := cs; rows := rs |}]> h))).
      apply list_fmap_ext. intros i r _. unfold g'. cbn [foldl].
      destruct (p r); [|done]. f_equal. unfold write_step.
      by rewrite decide_True by done.
    + unfold mret at 1, Py_ret at 1. rewrite (IH g) by done.
      apply (f_equal (λ rs, Ok ((), <[l := {| columns := cs; rows := rs |}]> h))).
      apply list_fmap_ext. intros i r _. cbn [foldl].
      destruct (p r); [|done]. f_equal. unfold write_step.
      by rewrite decide_False by done.
Qed.

Lemma tag_fields_edit_columns : tag_fields ⊆ edit_columns.
Proof. elem_tac. Qed.

Lemma ResourceID_edit_column : "ResourceID" ∈ edit_columns.
Proof. elem_tac. Qed.

Lemma copy_eq (l : ref) (h : store) (d : DataFrame) :
  h !! l = Some d → copy l h = Ok (fresh (dom h), <[fresh (dom h) := d]> h).
Proof. intros Hl. apply copy_Ok. by exists d. Qed.

(** The outer loop: every edited row in turn, on a frame that has the
    edit columns. *)
Lemma apply_edited_rows (l : ref) (ecols : list string) (es : list row)
    (cs : list string) (rs : list row) (h : store) :
  edit_columns ⊆ cs →
  "ResourceID" ∈ ecols ∨ es = [] →
  h !! l = Some {| columns := cs; rows := rs |} →
  for_each es (λ row,
    ids ← deref l ≫= (λ d, lift (getitem d "ResourceID"));
    rid ← lift (row_item ecols row "ResourceID");
    let mask := (λ v, cell_eq v rid) <$> ids in
    for_each edit_columns (λ col,
      if decide (col ∈ ecols)
      then v ← lift (row_item ecols row col);
           update l (λ d, Ok (loc_set d mask col v))
      else mret ())) h
  = Ok ((), <[l := {| columns := cs;
                      rows := apply_edits ecols es <$> rs |}]> h).
Proof.
  intros Hsub. revert rs h. induction es as [|e es IH]; intros rs h Hrid Hl.
  - cbn [for_each]. unfold mret, Py_ret. do 2 f_equal. symmetry.
    apply insert_id. rewrite Hl.
    apply (f_equal (λ rs, Some {| columns := cs; rows := rs |})).
    symmetry. apply list_fmap_id.
  - destruct Hrid as [Hrid|?]; [|done]. cbn [for_each].
    unfold mbind at 1, Py_bind at 1.
    unfold mbind at 1, Py_bind at 1.
    unfold mbind at 1, Py_bind at 1. unfold deref at 1. rewrite Hl.
    unfold lift at 1, getitem. cbn [columns rows].
    rewrite decide_True by (apply Hsub, ResourceID_edit_column).
    unfold mbind at 1, Py_bind at 1. unfold lift at 1, row_item at 1.
    rewrite decide_True by done. cbn zeta.
    rewrite <-list_fmap_compose.
    rewrite <-(list_fmap_id rs) in Hl.
    rewrite (write_columns l ecols e cs edit_columns rs
               ((λ v, cell_eq v (at_col e "ResourceID"))
                ∘ (λ r, at_col r "ResourceID")) id h Hsub Hl).
    rewrite (IH (apply_edit ecols e <$> rs)); [|by left|].
    + rewrite insert_insert_eq.
      apply (f_equal (λ rs, Ok ((), <[l := {| columns := cs; rows := rs |}]> h))).
      by rewrite <-list_fmap_compose.
    + rewrite lookup_insert_eq. done.
Qed.

(** [remediate] on a frame that has the edit columns: it succeeds when the
    edited table has a [ResourceID] column (or no row), the result is a
    new object, and its content is [remediated]. *)
Lemma remediate_spec (df : ref) (edited_df base : DataFrame) (h : store) :
  h !! df = Some base →
  edit_columns ⊆ columns base →
  "ResourceID" ∈ columns edited_df ∨ rows edited_df = [] →
  remediate df edited_df h
  = Ok (fresh (dom h), <[fresh (dom h) := remediated base edited_df]> h).
Proof.
  intros Hdf Hsub Hrid. unfold remediate.
  unfold mbind at 1, Py_bind at 1. rewrite (copy_eq _ _ _ Hdf).
  set (l := fresh (dom h)). destruct base as [cs rs]. cbn [columns] in Hsub.
  unfold mbind at 1, Py_bind at 1.
  rewrite (apply_edited_rows l (columns edited_df) (rows edited_df) cs rs)
    by (done || apply lookup_insert_eq).
  rewrite insert_insert_eq.
  unfold mbind at 1, Py_bind at 1. unfold update. rewrite lookup_insert_eq.
  rewrite score_tags_spec. cbn [columns].
  assert (filter (λ c, c ∉ cs) tag_fields = []) as ->.
  { apply filter_none. intros c Hc Hn. by apply Hn, Hsub, tag_fields_edit_columns. }
  rewrite insert_insert_eq. done.
Qed.

(** ** Rows after the write-back *)

Lemma cell_eq_true (a b : cell) : cell_eq a b = true → a = b.
Proof.
  destruct a as [|s|p], b as [|t|q]; simpl; try done;
    intros H%bool_decide_eq_true; by subst.
Qed.

Lemma lookup_foldl_insert (ecols : list string) (e r : row)
    (cols : list string) (col : string) :
  foldl (write_step ecols e) r cols !! col
  = if decide (col ∈ cols ∧ col ∈ ecols) then Some (at_col e col) else r !! col.
Proof.
  revert r. induction cols as [|c cols IH]; intros r; cbn [foldl].
  - rewrite decide_False; [done|]. intros [[]%not_elem_of_nil _].
  - rewrite IH. destruct (decide (col ∈ cols ∧ col ∈ ecols)) as [[H1 H2]|Hn].
    + rewrite decide_True; [done|]. split; [by right|done].
    + destruct (decide (c = col)) as [->|Hne].
      * unfold write_step at 1. destruct (decide (col ∈ ecols)) as [Hin|Hout].
        -- rewrite lookup_insert_eq, decide_True; [done|]. split; [left|done].
        -- rewrite decide_False; [done|]. by intros [_ ?].
      * assert (write_step ecols e r c !! col = r !! col) as ->.
        { unfold write_step. case_decide; [by apply lookup_insert_ne|done]. }
        rewrite decide_False; [done|].
        intros [[?|?]%elem_of_cons ?]; [by subst|]. by apply Hn.
Qed.

Lemma lookup_write_back (ecols : list string) (e r : row) (col : string) :
  write_back ecols e r !! col
  = if decide (col ∈ edit_columns ∧ col ∈ ecols) then Some (at_col e col)
    else r !! col.
Proof. apply lookup_foldl_insert. Qed.

Lemma at_col_write_back (ecols : list string) (e r : row) (col : string) :
  at_col (write_back ecols e r) col
  = if decide (col ∈ edit_columns ∧ col ∈ ecols) then at_col e col
    else at_col r col.
Proof. unfold at_col at 1. rewrite lookup_write_back. by case_decide. Qed.

(** The identifier of a row survives every edit. *)
Lemma apply_edit_ResourceID (ecols : list string) (e r : row) :
  at_col (apply_edit ecols e r) "ResourceID" = at_col r "ResourceID".
Proof.
  unfold apply_edit.
  destruct (cell_eq _ _) eqn:E; [|done].
  rewrite at_col_write_back. case_decide; [|done].
  symmetry. by apply cell_eq_true.
Qed.

Lemma apply_edits_ResourceID (ecols : list string) (es : list row) (r : row) :
  at_col (apply_edits ecols es r) "ResourceID" = at_col r "ResourceID".
Proof.
  revert r. induction es as [|e es IH]; intros r; [done|].
  unfold apply_edits in *. cbn [foldl]. by rewrite IH, apply_edit_ResourceID.
Qed.

Lemma apply_edits_app (ecols : list string) (es1 es2 : list row) (r : row) :
  apply_edits ecols (es1 ++ es2) r
  = apply_edits ecols es2 (apply_edits ecols es1 r).
Proof. unfold apply_edits. apply foldl_app. Qed.

Lemma apply_edits_no_match (ecols : list string) (es : list row) (r : row) :
  Forall (λ e, ¬ matches r e) es → apply_edits ecols es r = r.
Proof.
  induction 1 as [|e es He Hes IH]; [done|].
  unfold apply_edits in *. cbn [foldl]. unfold apply_edit at 2.
  unfold matches in He. destruct (cell_eq _ _); [done|]. apply IH.
Qed.

(** The cells of a row after all edits: those of the last edited row that
    bears its identifier, for the edit columns the edited table has. *)
Lemma apply_edits_last_match (ecols : list string) (es : list row)
    (r e : row) (col : string) :
  last_match es r e → col ∈ edit_columns → col ∈ ecols →
  at_col (apply_edits ecols es r) col = at_col e col.
Proof.
  intros (es1 & es2 & -> & Hm & Hno) Hcol Hin.
  rewrite apply_edits_app.
  change (e :: es2) with ([e] ++ es2). rewrite apply_edits_app.
  set (r1 := apply_edits ecols es1 r).
  assert (at_col r1 "ResourceID" = at_col r "ResourceID") as Hr1
    by apply apply_edits_ResourceID.
  assert (apply_edits ecols [e] r1 = write_back ecols e r1) as ->.
  { unfold apply_edits. cbn [foldl]. unfold apply_edit.
    unfold matches in Hm. by rewrite Hr1, Hm. }
  rewrite apply_edits_no_match.
  - rewrite at_col_write_back. by rewrite decide_True.
  - eapply Forall_impl; [exact Hno|]. intros e' He'. unfold matches in *.
    assert (at_col (write_back ecols e r1) "ResourceID"
            = at_col r "ResourceID") as ->; [|done].
    rewrite <-Hr1.
    assert (write_back ecols e r1 = apply_edit ecols e r1) as ->.
    { unfold apply_edit. by rewrite Hr1, Hm. }
    apply apply_edit_ResourceID.
Qed.

Lemma at_col_score_row (r : row) (col : string) :
  col ≠ "TagCompletenessScore" → col ≠ "TagCompletenessPercentage" →
  at_col (score_row r) col = at_col r col.
Proof. intros H1 H2. unfold score_row. by rewrite !at_col_insert_ne. Qed.

Lemma edit_columns_not_scores (col : string) :
  col ∈ edit_columns →
  col ≠ "TagCompletenessScore" ∧ col ≠ "TagCompletenessPercentage".
Proof.
  intros Hc. split; intros ->; apply (bool_decide_pack _) in Hc;
    by vm_compute in Hc.
Qed.

(** A column the write-back does not assign keeps its cell. *)
Lemma apply_edit_keeps (ecols : list string) (e r : row) (col : string) :
  col ∉ edit_columns ∨ col ∉ ecols →
  at_col (apply_edit ecols e r) col = at_col r col.
Proof.
  intros Hcol. unfold apply_edit. destruct (cell_eq _ _); [|done].
  rewrite at_col_write_back. rewrite decide_False; [done|]. tauto.
Qed.

Lemma apply_edits_keeps (ecols : list string) (es : list row) (r : row)
    (col : string) :
  col ∉ edit_columns ∨ col ∉ ecols →
  at_col (apply_edits ecols es r) col = at_col r col.
Proof.
  intros Hcol. revert r. induction es as [|e es IH]; intros r; [done|].
  unfold apply_edits in *. cbn [foldl]. by rewrite IH, apply_edit_keeps.
Qed.

(** ** Well-formed frames *)

Lemma score_row_idemp (r : row) : score_row (score_row r) = score_row r.
Proof.
  unfold score_row at 1. rewrite count_notna_score_row. unfold score_row.
  apply map_eq. intros k. rewrite !lookup_insert. by repeat case_decide.
Qed.

Lemma lookup_score_row_is_Some (r : row) (c : string) :
  is_Some (score_row r !! c) ↔
  is_Some (r !! c) ∨ c = "TagCompletenessScore" ∨ c = "TagCompletenessPercentage".
Proof.
  unfold score_row. rewrite !lookup_insert.
  repeat case_decide; subst; split; eauto; intros [?|[?|?]]; eauto; congruence.
Qed.

Lemma rectangular_scored (df : DataFrame) :
  rectangular df → rectangular (scored df).
Proof.
  intros [Hnd Hrows]. split; cbn [scored columns rows].
  - by do 2 apply NoDup_add_column.
  - apply Forall_fmap. eapply Forall_impl; [exact Hrows|].
    intros r Hr c. cbv beta in Hr.
    rewrite lookup_score_row_is_Some, !elem_of_add_column, Hr. tauto.
Qed.

Lemma tag_scored_scored (df : DataFrame) :
  tag_fields ⊆ columns df → tag_scored (scored df).
Proof.
  intros Hsub. unfold tag_scored. cbn [scored columns rows].
  split; [|split; [|split]].
  - intros c Hc. rewrite !elem_of_add_column. left. left. by apply Hsub.
  - rewrite !elem_of_add_column. left. by right.
  - rewrite !elem_of_add_column. by right.
  - apply Forall_fmap, Forall_forall. intros r _. apply score_row_idemp.
Qed.

Lemma scored_id (df : DataFrame) : tag_scored df → scored df = df.
Proof.
  intros (_ & Hs & Hp & Hrows). destruct df as [cs rs].
  unfold scored. cbn [columns rows] in *. f_equal.
  - unfold add_column. rewrite (decide_True _ _ Hs). by rewrite decide_True.
  - rewrite <-(list_fmap_id rs) at 2. apply Forall_fmap_ext_1.
    eapply Forall_impl; [exact Hrows|]. done.
Qed.

Lemma read_record_is_Some (hs na : list string) (fs : list field) (c : string) :
  NoDup hs → is_Some (read_record hs na fs !! c) ↔ c ∈ hs.
Proof.
  intros Hnd. split.
  - intros Hc. destruct (decide (c ∈ hs)) as [|Hn]; [done|].
    rewrite read_record_lookup_None in Hc by done. by destruct Hc.
  - intros [i Hi]%list_elem_of_lookup_1.
    rewrite (read_record_lookup _ _ _ i) by done. eauto.
Qed.

(** What [load_data] returns is a well-formed, scored frame. *)
Lemma load_data_well_formed (raw : RawTable) (df : DataFrame) :
  NoDup (headers raw) → load_data raw = Ok df →
  rectangular df ∧ tag_scored df.
Proof.
  intros Hnd Hload. rewrite load_data_spec in Hload.
  case_decide; [|done].
  destruct (filter _ tag_fields) eqn:E; [|done]. injection Hload as <-.
  split.
  - apply rectangular_scored. split; [done|]. cbn [rows columns].
    apply Forall_forall. intros r Hr.
    apply (proj1 (elem_of_keep_first _ _)) in Hr.
    apply list_elem_of_fmap in Hr as (fs & -> & _).
    intros c. by apply read_record_is_Some.
  - apply tag_scored_scored. cbn [columns]. intros c Hc.
    destruct (decide (c ∈ headers raw)) as [|Hn]; [done|].
    assert (c ∈ filter (λ c, c ∉ headers raw) tag_fields) as Hin
      by by apply list_elem_of_filter.
    rewrite E in Hin. by apply not_elem_of_nil in Hin.
Qed.

Lemma apply_edit_is_Some (ecols : list string) (e r : row) (c : string) :
  (∀ c, c ∈ edit_columns → is_Some (r !! c)) →
  is_Some (apply_edit ecols e r !! c) ↔ is_Some (r !! c).
Proof.
  intros Hr. unfold apply_edit. destruct (cell_eq _ _); [|done].
  rewrite lookup_write_back. case_decide as Hc; [|done].
  split; [intros _; by apply Hr, Hc|eauto].
Qed.

Lemma apply_edits_is_Some (ecols : list string) (es : list row) (r : row)
    (c : string) :
  (∀ c, c ∈ edit_columns → is_Some (r !! c)) →
  is_Some (apply_edits ecols es r !! c) ↔ is_Some (r !! c).
Proof.
  revert r. induction es as [|e es IH]; intros r Hr; [done|].
  unfold apply_edits in *. cbn [foldl].
  rewrite IH; [by apply apply_edit_is_Some|].
  intros c' Hc'. by apply apply_edit_is_Some, Hr.
Qed.

Lemma remediated_well_formed (base edited_df : DataFrame) :
  rectangular base → edit_columns ⊆ columns base →
  rectangular (remediated base edited_df) ∧
  tag_scored (remediated base edited_df).
Proof.
  intros [Hnd Hrows] Hsub. split.
  - apply rectangular_scored. split; [done|]. cbn [columns rows].
    apply Forall_fmap. eapply Forall_impl; [exact Hrows|].
    intros r Hr c. cbv beta in Hr. unfold compose.
    rewrite apply_edits_is_Some; [apply Hr|].
    intros c' Hc'. by apply Hr, Hsub.
  - apply tag_scored_scored. cbn [columns].
    intros c Hc. by apply Hsub, tag_fields_edit_columns.
Qed.

(** An edited table with rows but no [ResourceID] column makes the loop
    raise at its first row. *)
Lemma remediate_Ok_ResourceID (l out : ref) (edited_df base : DataFrame)
    (h h' : store) :
  remediate l edited_df h = Ok (out, h') →
  "ResourceID" ∈ columns edited_df ∨ rows edited_df = [].
Proof.
  intros H. destruct (decide ("ResourceID" ∈ columns edited_df)) as [|Hn];
    [by left|right].
  destruct (rows edited_df) as [|e es] eqn:E; [done|]. exfalso.
  unfold remediate in H. rewrite E in H.
  apply Py_bind_Ok in H as (l' & h1 & _ & H).
  apply Py_bind_Ok in H as (u & h2 & H & _).
  cbn [for_each] in H.
  apply Py_bind_Ok in H as (u' & h3 & H & _).
  apply Py_bind_Ok in H as (ids & h4 & _ & H).
  apply Py_bind_Ok in H as (rid & h5 & H & _).
  apply lift_Ok in H as [H _]. unfold row_item in H.
  by rewrite decide_False in H by done.
Qed.

Lemma remediate_Ok_inv (l out : ref) (edited_df base : DataFrame)
    (h h' : store) :
  h !! l = Some base → edit_columns ⊆ columns base →
  remediate l edited_df h = Ok (out, h') →
  h' !! out = Some (remediated base edited_df).
Proof.
  intros Hl Hsub H.
  pose proof (remediate_Ok_ResourceID _ _ _ base _ _ H) as Hrid.
  rewrite (remediate_spec _ _ _ _ Hl Hsub Hrid) in H.
  injection H as <- <-. apply lookup_insert_eq.
Qed.

Lemma produced_well_formed (df : DataFrame) :
  produced df → rectangular df ∧ tag_scored df.
Proof.
  induction 1 as [raw df Hnd Hload|base ed df l out h h' _ [IH _] Hsub Hl Hrun Hout].
  - by eapply load_data_well_formed.
  - rewrite (remediate_Ok_inv _ _ _ _ _ _ Hl Hsub Hrun) in Hout.
    injection Hout as <-. by apply remediated_well_formed.
Qed.

(** ** Export and reload *)





Lemma score_row_inj (x y : row) :
  x !! "TagCompletenessScore" = None → x !! "TagCompletenessPercentage" = None →
  y !! "TagCompletenessScore" = None → y !! "TagCompletenessPercentage" = None →
  score_row x = score_row y → x = y.
Proof.
  intros Hxs Hxp Hys Hyp Heq. apply map_eq. intros k.
  destruct (decide (k = "TagCompletenessScore")) as [->|H1]; [congruence|].
  destruct (decide (k = "TagCompletenessPercentage")) as [->|H2]; [congruence|].
  apply (f_equal (λ m : row, m !! k)) in Heq. unfold score_row in Heq.
  by rewrite !lookup_insert_ne in Heq.
Qed.

(** A table without score columns is loaded into a frame without equal
    rows. *)
Lemma load_data_no_duplicates (raw : RawTable) (df : DataFrame) :
  NoDup (headers raw) →
  "TagCompletenessScore" ∉ headers raw →
  "TagCompletenessPercentage" ∉ headers raw →
  load_data raw = Ok df → NoDup (rows df).
Proof.
  intros Hnd Hs Hp Hload. rewrite load_data_spec in Hload.
  case_decide; [|done].
  destruct (filter _ tag_fields); [|done]. injection Hload as <-.
  cbn [scored rows]. apply NoDup_fmap_2_strong; [|apply NoDup_keep_first].
  intros x y Hx Hy. apply (proj1 (elem_of_keep_first _ _)) in Hx, Hy.
  apply list_elem_of_fmap in Hx as (fx & -> & _).
  apply list_elem_of_fmap in Hy as (fy & -> & _).
  apply score_row_inj; by apply read_record_lookup_None.
Qed.

(** ** Doubles: sums that are exact *)

Lemma pow2_nonpos (j : Z) : (0 ≤ j)%Z → pow2 (- j) = (1 / Qc_of_Z (2 ^ j))%Qc.
Proof.
  intros Hj. unfold pow2. rewrite Z.opp_involutive.
  by rewrite Z.max_r, Z.max_l, Z.pow_0_r, Z2Qc_inj_1 by lia.
Qed.

Lemma pow2_nonneg (j : Z) : (0 ≤ j)%Z → pow2 j = Qc_of_Z (2 ^ j).
Proof.
  intros Hj. unfold pow2.
  rewrite Z.max_l, Z.max_r, Z.pow_0_r, Z2Qc_inj_1 by lia.
  by field.
Qed.

Lemma Qc_of_Z_pow2_pos (j : Z) : (0 ≤ j)%Z → (0 < Qc_of_Z (2 ^ j))%Qc.
Proof.
  intros Hj. rewrite <-Z2Qc_inj_0. apply (proj1 (Z2Qc_inj_lt _ _)).
  by apply Z.pow_pos_nonneg.
Qed.

Lemma Qfloor_Qc_of_Z (k : Z) : Qfloor (Qc_of_Z k) = k.
Proof. apply Qfloor_Z. Qed.

Lemma round_half_even_Z (k : Z) : round_half_even (Qc_of_Z k) = k.
Proof.
  unfold round_half_even. rewrite Qfloor_Qc_of_Z.
  replace (Qc_of_Z k - Qc_of_Z k)%Qc with 0%Qc by ring. done.
Qed.

Lemma Qnum_Qc_of_Z (k : Z) : Qnum (Qc_of_Z k) = k.
Proof. done. Qed.

Lemma Qden_Qc_of_Z (k : Z) : Qden (Qc_of_Z k) = 1%positive.
Proof. done. Qed.

Lemma ulp_exponent_Z (k : Z) :
  (0 < k < double_limit)%Z → ulp_exponent (Qc_of_Z k) = (Z.log2 k - 52)%Z.
Proof.
  intros [Hpos Hlt]. unfold ulp_exponent.
  rewrite Qnum_Qc_of_Z, Qden_Qc_of_Z. cbn [Z.log2]. rewrite Z.sub_0_r.
  pose proof (Z.log2_nonneg k) as Hlog.
  rewrite bool_decide_eq_true_2.
  - lia.
  - rewrite pow2_nonneg by done. apply (proj1 (Z2Qc_inj_le _ _)).
    by apply Z.log2_spec.
Qed.

Lemma round64_Z (k : Z) :
  (0 ≤ k < double_limit)%Z → round64 (Qc_of_Z k) = Qc_of_Z k.
Proof.
  intros [Hk Hlt]. destruct (decide (k = 0%Z)) as [->|Hne]; [by rewrite Z2Qc_inj_0|].
  assert (0 < k)%Z as Hpos by lia.
  unfold round64.
  assert ((Qc_of_Z k ?= 0)%Qc = Gt) as ->.
  { apply Qcgt_alt. rewrite <-Z2Qc_inj_0. by apply (proj1 (Z2Qc_inj_lt _ _)). }
  unfold round_positive. rewrite ulp_exponent_Z by done.
  assert (Z.log2 k < 53)%Z as Hlog by (by apply Z.log2_lt_pow2).
  pose proof (Z.log2_nonneg k) as Hlog0.
  set (j := (52 - Z.log2 k)%Z).
  replace (Z.log2 k - 52)%Z with (- j)%Z by (unfold j; lia).
  assert (0 ≤ j)%Z as Hj by (unfold j; lia).
  rewrite pow2_nonpos by done.
  pose proof (Qc_of_Z_pow2_pos j Hj) as Hp.
  assert (Qc_of_Z (2 ^ j) ≠ 0%Qc) as Hp0
    by (intros E; rewrite E in Hp; by apply (irreflexivity Qclt 0%Qc)).
  assert (Qc_of_Z k / (1 / Qc_of_Z (2 ^ j)) = Qc_of_Z (k * 2 ^ j))%Qc as ->.
  { rewrite Z2Qc_inj_mul. by field. }
  rewrite round_half_even_Z, Z2Qc_inj_mul. by field.
Qed.

Lemma fadd_Z (a b : Z) :
  (0 ≤ a)%Z → (0 ≤ b)%Z → (a + b < double_limit)%Z →
  fadd (Qc_of_Z a) (Qc_of_Z b) = Qc_of_Z (a + b).
Proof.
  intros Ha Hb Hlt. unfold fadd. rewrite <-Z2Qc_inj_add.
  apply round64_Z. lia.
Qed.

Lemma Zsum_app (xs ys : list Z) : Zsum (xs ++ ys) = (Zsum xs + Zsum ys)%Z.
Proof.
  induction xs as [|x xs IH]; [done|].
  rewrite <-app_comm_cons. cbn [Zsum]. rewrite IH. lia.
Qed.

Lemma Zsum_nonneg (zs : list Z) : Forall (λ z, 0 ≤ z)%Z zs → (0 ≤ Zsum zs)%Z.
Proof. induction 1; cbn [Zsum]; lia. Qed.

Lemma Zsum_take_drop (n : nat) (zs : list Z) :
  (Zsum (take n zs) + Zsum (drop n zs))%Z = Zsum zs.
Proof. by rewrite <-Zsum_app, take_drop. Qed.

Lemma sum_loop_Z (zs : list Z) (a : Z) :
  (0 ≤ a)%Z → Forall (λ z, 0 ≤ z)%Z zs → (a + Zsum zs < double_limit)%Z →
  sum_loop (Qc_of_Z a) (Qc_of_Z <$> zs) = Qc_of_Z (a + Zsum zs).
Proof.
  intros Ha Hzs. revert a Ha.
  induction Hzs as [|z zs Hz Hzs IH]; intros a Ha Hlt; cbn [Zsum] in *.
  - by rewrite Z.add_0_r.
  - pose proof (Zsum_nonneg zs Hzs) as Hs.
    rewrite fmap_cons. unfold sum_loop. cbn [foldl].
    rewrite fadd_Z by lia. fold (sum_loop (Qc_of_Z (a + z)) (Qc_of_Z <$> zs)).
    rewrite IH by lia. f_equal. lia.
Qed.

Lemma zip_with_fadd_Z (r c : list Z) :
  Forall (λ z, 0 ≤ z)%Z r → Forall (λ z, 0 ≤ z)%Z c →
  (Zsum r + Zsum c < double_limit)%Z →
  zip_with fadd (Qc_of_Z <$> r) (Qc_of_Z <$> c)
  = Qc_of_Z <$> zip_with Z.add r c.
Proof.
  intros Hr. revert c.
  induction Hr as [|x r Hx Hr IH]; intros c Hc Hlt; [done|].
  destruct Hc as [|y c Hy Hc]; [done|].
  pose proof (Zsum_nonneg r Hr) as Hsr. pose proof (Zsum_nonneg c Hc) as Hsc.
  cbn [Zsum] in *.
  rewrite !fmap_cons. cbn [zip_with]. rewrite fmap_cons.
  rewrite fadd_Z by lia. f_equal. apply IH; [done|]. lia.
Qed.

Lemma Zsum_zip_with (r c : list Z) :
  length r = length c → Zsum (zip_with Z.add r c) = (Zsum r + Zsum c)%Z.
Proof.
  revert c. induction r as [|x r IH]; intros [|y c] Hlen; try done.
  cbn [Zsum zip_with]. injection Hlen as Hlen.
  specialize (IH c Hlen). lia.
Qed.

Lemma Forall_zip_with_add (r c : list Z) :
  Forall (λ z, 0 ≤ z)%Z r → Forall (λ z, 0 ≤ z)%Z c →
  Forall (λ z, 0 ≤ z)%Z (zip_with Z.add r c).
Proof.
  intros Hr. revert c. induction Hr as [|x r Hx Hr IH]; intros c Hc; [done|].
  destruct Hc as [|y c Hy Hc]; [done|]. cbn [zip_with].
  constructor; [lia|by apply IH].
Qed.

Lemma add_lanes_Z (groups : nat) (r a : list Z) :
  length r = 8 → 8 * groups ≤ length a →
  Forall (λ z, 0 ≤ z)%Z r → Forall (λ z, 0 ≤ z)%Z a →
  (Zsum r + Zsum a < double_limit)%Z →
  ∃ r' a',
    add_lanes groups (Qc_of_Z <$> r) (Qc_of_Z <$> a)
    = (Qc_of_Z <$> r', Qc_of_Z <$> a') ∧
    length r' = 8 ∧ Forall (λ z, 0 ≤ z)%Z r' ∧ Forall (λ z, 0 ≤ z)%Z a' ∧
    (Zsum r' + Zsum a')%Z = (Zsum r + Zsum a)%Z.
Proof.
  revert r a. induction groups as [|groups IH]; intros r a Hr Hlen Hr0 Ha0 Hlt.
  - exists r, a. by repeat split.
  - cbn [add_lanes]. rewrite <-fmap_take, <-fmap_drop.
    pose proof (Zsum_take_drop 8 a) as Hsplit.
    assert (Forall (λ z, 0 ≤ z)%Z (take 8 a)) as Ht by by apply Forall_take.
    assert (Forall (λ z, 0 ≤ z)%Z (drop 8 a)) as Hd by by apply Forall_drop.
    pose proof (Zsum_nonneg _ Ht) as Hst. pose proof (Zsum_nonneg _ Hd) as Hsd.
    assert (length (take 8 a) = 8) as Hlt8 by (rewrite length_take; lia).
    rewrite zip_with_fadd_Z by (done || lia).
    destruct (IH (zip_with Z.add r (take 8 a)) (drop 8 a))
      as (r' & a' & Hrun & Hr' & Hr'0 & Ha'0 & Hsum).
    + rewrite length_zip_with. lia.
    + rewrite length_drop. lia.
    + by apply Forall_zip_with_add.
    + done.
    + rewrite Zsum_zip_with by congruence. lia.
    + exists r', a'. split; [done|]. split; [done|]. split; [done|].
      split; [done|]. rewrite Hsum, Zsum_zip_with by congruence. lia.
Qed.

Lemma sum_block_Z (zs : list Z) :
  8 ≤ length zs → Forall (λ z, 0 ≤ z)%Z zs → (Zsum zs < double_limit)%Z →
  sum_block (Qc_of_Z <$> zs) = Qc_of_Z (Zsum zs).
Proof.
  intros Hlen Hzs Hlt. unfold sum_block.
  rewrite length_fmap, <-fmap_take, <-fmap_drop.
  pose proof (Zsum_take_drop 8 zs) as Hsplit.
  destruct (add_lanes_Z (length zs / 8 - 1) (take 8 zs) (drop 8 zs))
    as (r & rest & -> & Hr & Hr0 & Hrest0 & Hsum).
  - rewrite length_take. lia.
  - rewrite length_drop. pose proof (Nat.Div0.mul_div_le (length zs) 8). lia.
  - by apply Forall_take.
  - by apply Forall_drop.
  - lia.
  - pose proof (Zsum_nonneg _ Hrest0) as Hsr.
    destruct r as [|r0 [|r1 [|r2 [|r3 [|r4 [|r5 [|r6 [|r7 [|]]]]]]]]];
      try discriminate Hr.
    repeat match goal with
           | H : Forall _ (_ :: _) |- _ => apply Forall_cons in H as [? H]
           end.
    cbn [Zsum] in Hsum. unfold lane.
    cbn [fmap list_fmap lookup list_lookup default from_option id].
    rewrite !fadd_Z by lia.
    rewrite sum_loop_Z by (done || lia).
    f_equal. lia.
Qed.

Lemma pairwise_Z (depth : nat) (zs : list Z) :
  Forall (λ z, 0 ≤ z)%Z zs → (Zsum zs < double_limit)%Z →
  pairwise depth (Qc_of_Z <$> zs) = Qc_of_Z (Zsum zs).
Proof.
  revert zs. induction depth as [|depth IH]; intros zs Hzs Hlt;
    cbn [pairwise]; rewrite length_fmap.
  - destruct (decide (length zs < 8)).
    { rewrite <-Z2Qc_inj_0, sum_loop_Z by done. by rewrite Z.add_0_l. }
    case_decide; apply sum_block_Z; (done || lia).
  - destruct (decide (length zs < 8)).
    { rewrite <-Z2Qc_inj_0, sum_loop_Z by done. by rewrite Z.add_0_l. }
    case_decide; [apply sum_block_Z; (done || lia)|].
    rewrite <-fmap_take, <-fmap_drop.
    set (n2 := length zs / 2 - (length zs / 2) mod 8).
    pose proof (Zsum_take_drop n2 zs) as Hsplit.
    assert (Forall (λ z, 0 ≤ z)%Z (take n2 zs)) as Ht by by apply Forall_take.
    assert (Forall (λ z, 0 ≤ z)%Z (drop n2 zs)) as Hd by by apply Forall_drop.
    pose proof (Zsum_nonneg _ Ht) as Hst. pose proof (Zsum_nonneg _ Hd) as Hsd.
    rewrite !IH by (done || lia). rewrite fadd_Z by lia. by rewrite Hsplit.
Qed.

(** Non-negative whole numbers whose sum stays below [2^53] are added
    without rounding. *)
Lemma pairwise_sum_Z (zs : list Z) :
  Forall (λ z, 0 ≤ z)%Z zs → (Zsum zs < double_limit)%Z →
  pairwise_sum (Qc_of_Z <$> zs) = Qc_of_Z (Zsum zs).
Proof. apply pairwise_Z. Qed.

(** In [pairwise] the depth is never used up. *)
Lemma pairwise_depth (d1 d2 : nat) (a : list Qc) :
  length a ≤ d1 → length a ≤ d2 → pairwise d1 a = pairwise d2 a.
Proof.
  revert d2 a. induction d1 as [|d1 IH]; intros d2 a H1 H2.
  - destruct a; [|cbn [length] in H1; lia]. by destruct d2.
  - destruct d2 as [|d2].
    { destruct a; [done|cbn [length] in H2; lia]. }
    cbn [pairwise]. repeat case_decide; try done.
    set (n2 := length a / 2 - (length a / 2) mod 8).
    assert (n2 ≤ length a / 2) as Hn2 by (unfold n2; lia).
    assert (0 < n2) as Hn2'.
    { unfold n2. pose proof (Nat.mod_upper_bound (length a / 2) 8).
      assert (64 ≤ length a / 2) by (apply Nat.div_le_lower_bound; lia). lia. }
    assert (length a / 2 < length a) by (apply Nat.div_lt; lia).
    f_equal; apply IH; rewrite ?length_take, ?length_drop; lia.
Qed.

(** *** Whole costs *)

Lemma whole_cost_Z (r : row) : whole_cost r → cost r = Qc_of_Z (Qnum (cost r)).
Proof.
  intros [_ Hden]. apply Qc_is_canon. destruct (cost r) as [[n d] Hc].
  cbn [this Qnum Qden] in *. by subst d.
Qed.

Lemma whole_cost_nonneg (r : row) : whole_cost r → (0 ≤ cost r)%Qc.
Proof.
  intros Hr. rewrite (whole_cost_Z r Hr), <-Z2Qc_inj_0.
  apply (proj1 (Z2Qc_inj_le _ _)). by destruct Hr.
Qed.

Lemma sum_cost_Z (rs : list row) :
  Forall whole_cost rs →
  cost <$> rs = Qc_of_Z <$> ((λ r, Qnum (cost r)) <$> rs) ∧
  sum_cost rs = Qc_of_Z (Zsum ((λ r, Qnum (cost r)) <$> rs)).
Proof.
  induction 1 as [|r rs Hr _ [IH1 IH2]];
    [split; [done|symmetry; apply Z2Qc_inj_0]|].
  rewrite !fmap_cons. cbn [sum_cost foldr Zsum]. fold (sum_cost rs).
  rewrite Z2Qc_inj_add, <-IH1, <-IH2, <-(whole_cost_Z r Hr). by split.
Qed.

Lemma sum_cost_nonneg (rs : list row) :
  Forall (λ r, 0 ≤ cost r)%Qc rs → (0 ≤ sum_cost rs)%Qc.
Proof.
  induction 1 as [|r rs Hr _ IH]; [done|]. cbn [sum_cost foldr].
  by apply Qcplus_nonneg_nonneg.
Qed.

Lemma sum_cost_filter_le (P : row → Prop) `{!∀ r, Decision (P r)}
    (rs : list row) :
  Forall (λ r, 0 ≤ cost r)%Qc rs → (sum_cost (filter P rs) ≤ sum_cost rs)%Qc.
Proof.
  induction 1 as [|r rs Hr _ IH]; [done|]. rewrite filter_cons.
  case_decide; cbn [sum_cost foldr].
  - by apply Qcplus_le_mono_l.
  - rewrite <-(Qcplus_0_l (sum_cost (filter P rs))).
    by apply Qcplus_le_compat.
Qed.

(** Whole costs with a sum below [2^53]: the code's sum is the exact one. *)
Lemma double_sum_cost_exact (rs : list row) :
  whole_costs rs → double_sum_cost rs = sum_cost rs.
Proof.
  intros [Hrs Hlt]. destruct (sum_cost_Z rs Hrs) as [Hcosts Hsum].
  unfold double_sum_cost. rewrite Hcosts, Hsum. apply pairwise_sum_Z.
  - apply Forall_fmap. eapply Forall_impl; [exact Hrs|]. by intros r [? _].
  - rewrite Hsum in Hlt. by apply Z2Qc_inj_lt.
Qed.

Lemma whole_costs_filter (P : row → Prop) `{!∀ r, Decision (P r)}
    (rs : list row) :
  whole_costs rs → whole_costs (filter P rs).
Proof.
  intros [Hrs Hlt]. split.
  - rewrite Forall_forall in Hrs. apply Forall_forall.
    intros r [_ Hr]%list_elem_of_filter. by apply Hrs.
  - eapply Qcle_lt_trans; [|exact Hlt]. apply sum_cost_filter_le.
    eapply Forall_impl; [exact Hrs|]. apply whole_cost_nonneg.
Qed.

(** * The claims *)

(** C4.  On a frame without rows (and with the columns the metrics read)
    [calculate_metrics] returns, and both guarded ratios are 0:
    [tagging_rate] because [total_resources] is 0, [untagged_cost_pct]
    because the empty sum is 0.  No division takes place. *)
Theorem metrics_empty (cols : list string) :
  "Tagged" ∈ cols → "MonthlyCostUSD" ∈ cols → "TagCompletenessScore" ∈ cols →
  ∃ m, calculate_metrics {| columns := cols; rows := [] |} = Ok m ∧
       tagging_rate m = 0%Qc ∧ untagged_cost_pct m = 0%Qc.
Proof.
  intros Ht Hc Hs. unfold calculate_metrics, where_tagged, getitem. simpl.
  repeat (rewrite decide_True by done; simpl).
  eexists. split; [reflexivity|]. done.
Qed.

Lemma metrics_empty_witness :
  ∃ m, calculate_metrics
         {| columns := schema ++ ["TagCompletenessScore"; "TagCompletenessPercentage"];
            rows := [] |} = Ok m ∧
       tagging_rate m = 0%Qc ∧ untagged_cost_pct m = 0%Qc.
Proof.
  apply (metrics_empty
           (schema ++ ["TagCompletenessScore"; "TagCompletenessPercentage"]));
    elem_tac.
Defined.

(** C5.  [tagged_resources] counts the rows whose [Tagged] cell is the
    string [Yes], [untagged_resources] those whose cell is [No]; a row
    with any other cell, a missing one included, is in neither count, so
    the two counts and the number of those rows add up to
    [total_resources], and the two counts alone do not exceed it. *)
Theorem metrics_tagged_counts (df : DataFrame) (m : Metrics) :
  calculate_metrics df = Ok m →
  tagged_resources m = length (filter (tagged_as "Yes") (rows df)) ∧
  untagged_resources m = length (filter (tagged_as "No") (rows df)) ∧
  tagged_resources m + untagged_resources m
    + length (filter (λ r, ¬ tagged_as "Yes" r ∧ ¬ tagged_as "No" r) (rows df))
    = total_resources m ∧
  tagged_resources m + untagged_resources m ≤ total_resources m.
Proof.
  intros H. apply calculate_metrics_Ok in H as (Ht & Hy & Hn & _).
  pose proof (filter_tagged_split (rows df)) as Hs.
  rewrite Ht, Hy, Hn. repeat split; [done|lia].
Qed.

Lemma metrics_tagged_counts_witness :
  ∃ m, calculate_metrics loaded_inventory = Ok m ∧
       tagged_resources m = 1 ∧ untagged_resources m = 1 ∧ total_resources m = 3 ∧
       tagged_resources m + untagged_resources m ≤ total_resources m.
Proof.
  eexists. split; [vm_compute; reflexivity|].
  split; [reflexivity|]. split; [reflexivity|]. split; [reflexivity|].
  eapply (metrics_tagged_counts loaded_inventory). vm_compute; reflexivity.
Defined.

(** C10 (as amended).  When every cost is a whole number that is not
    negative (a missing cost counting as 0) and the costs add up to less
    than [2^53], the three sums of [calculate_metrics] are exact: each is
    the sum of the costs of its rows, and the costs of the rows tagged
    [Yes] and of the rows tagged [No] together do not exceed the cost of
    all rows. *)
Theorem metrics_cost_split (df : DataFrame) (m : Metrics) :
  whole_costs (rows df) →
  calculate_metrics df = Ok m →
  total_cost m = sum_cost (rows df) ∧
  tagged_cost m = sum_cost (filter (tagged_as "Yes") (rows df)) ∧
  untagged_cost m = sum_cost (filter (tagged_as "No") (rows df)) ∧
  (tagged_cost m + untagged_cost m ≤ total_cost m)%Qc.
Proof.
  intros Hwhole H.
  apply calculate_metrics_Ok in H as (_ & _ & _ & Ht & Hy & Hn).
  rewrite double_sum_cost_exact in Ht, Hy, Hn
    by (done || by apply whole_costs_filter).
  rewrite Ht, Hy, Hn. split; [done|]. split; [done|]. split; [done|].
  apply sum_cost_split. destruct Hwhole as [Hrs _].
  eapply Forall_impl; [exact Hrs|]. apply whole_cost_nonneg.
Qed.

Lemma metrics_cost_split_witness :
  whole_costs (rows loaded_inventory) ∧
  calculate_metrics loaded_inventory = Ok (metrics_or_zero loaded_inventory) ∧
  total_cost (metrics_or_zero loaded_inventory)
  = sum_cost (rows loaded_inventory) ∧
  tagged_cost (metrics_or_zero loaded_inventory)
  = sum_cost (filter (tagged_as "Yes") (rows loaded_inventory)) ∧
  untagged_cost (metrics_or_zero loaded_inventory)
  = sum_cost (filter (tagged_as "No") (rows loaded_inventory)) ∧
  (tagged_cost (metrics_or_zero loaded_inventory)
   + untagged_cost (metrics_or_zero loaded_inventory)
   ≤ total_cost (metrics_or_zero loaded_inventory))%Qc.
Proof.
  split; [elem_tac|]. split; [elem_tac|].
  apply (metrics_cost_split loaded_inventory); elem_tac.
Defined.

(** C10 (counterexample).  Three resources cost 0.05, 0.01 and 0.1, none
    is negative, the first and the last are tagged.  The sums are rounded
    after every addition: all three add up to 0.16, the two tagged ones
    to 0.15000000000000002, and that with the 0.01 of the untagged one is
    more than the total. *)
Lemma rounded_costs_exceed_total :
  load_data cents = Ok loaded_cents ∧
  Forall nonneg_cost (rows loaded_cents) ∧
  calculate_metrics loaded_cents = Ok (metrics_or_zero loaded_cents) ∧
  total_cost (metrics_or_zero loaded_cents) = double (16 # 100) ∧
  tagged_cost (metrics_or_zero loaded_cents)
  = double (15000000000000002 # 100000000000000000) ∧
  untagged_cost (metrics_or_zero loaded_cents) = double (1 # 100) ∧
  (total_cost (metrics_or_zero loaded_cents)
   < tagged_cost (metrics_or_zero loaded_cents)
     + untagged_cost (metrics_or_zero loaded_cents))%Qc.
Proof. elems_tac. Qed.

(** C6 (as amended).  Of the text fields of a loaded record, exactly those
    that are the empty string, one space, or one of pandas' default
    missing-value tokens are read as absent; every other text, also longer
    whitespace, stays a string.  The score of the row counts the tag
    columns that are not absent. *)
Theorem load_data_blank_fields (raw : RawTable) (df : DataFrame) :
  NoDup (headers raw) →
  load_data raw = Ok df →
  ∀ fs, fs ∈ records raw →
  ∃ r, r ∈ rows df ∧
    (∀ i c s,
       headers raw !! i = Some c →
       c ∉ ["TagCompletenessScore"; "TagCompletenessPercentage"] →
       fs !! i = Some (Text s) →
       at_col r c = if decide (s ∈ load_na_values ++ STR_NA_VALUES) then NaN
                    else Str s) ∧
    at_col r "TagCompletenessScore" = Num (Qc_of_nat (count_notna r tag_fields)).
Proof.
  intros Hnd Hload fs Hfs. rewrite load_data_spec in Hload.
  case_decide; [|done].
  destruct (filter _ tag_fields); [|done]. injection Hload as <-.
  exists (score_row (read_record (headers raw) load_na_values fs)).
  split; [|split].
  - cbn [scored rows]. apply list_elem_of_fmap_2, elem_of_keep_first.
    by apply list_elem_of_fmap_2.
  - intros i c s Hi Hc Hs. unfold score_row.
    rewrite !at_col_insert_ne by (intros <-; apply Hc; repeat constructor).
    unfold at_col. rewrite (read_record_lookup _ _ _ i) by done.
    by rewrite Hs.
  - apply score_row_score.
Qed.

Lemma load_data_blank_fields_witness :
  ∃ r, r ∈ rows loaded_inventory ∧
    (∀ i c s,
       headers inventory !! i = Some c →
       c ∉ ["TagCompletenessScore"; "TagCompletenessPercentage"] →
       record_R1 !! i = Some (Text s) →
       at_col r c = if decide (s ∈ load_na_values ++ STR_NA_VALUES) then NaN
                    else Str s) ∧
    at_col r "TagCompletenessScore" = Num (Qc_of_nat (count_notna r tag_fields)).
Proof.
  apply (load_data_blank_fields inventory loaded_inventory); elem_tac.
Defined.

(** C6 (counterexample).  A [Department] of two spaces is whitespace only,
    yet it is loaded as a string and counted: the row scores 1. *)
Lemma whitespace_field_counted :
  whitespace_only "  " = true ∧
  load_data padded = Ok loaded_padded ∧
  length (rows loaded_padded) = 1 ∧
  cells_at loaded_padded 0 ["Department"; "TagCompletenessScore"]
  = [Str "  "; Num (Qc_of_nat 1)].
Proof. elems_tac. Qed.

(** C7 (as amended).  The only columns [load_data] asks for are the five
    tag columns: when they are all in the header the load succeeds, and
    when one is absent it raises a [KeyError] naming the absent ones and
    returns no frame. *)
Theorem load_data_missing_columns (raw : RawTable) :
  Forall (λ fs, length fs ≤ length (headers raw)) (records raw) →
  (tag_fields ⊆ headers raw → ∃ df, load_data raw = Ok df) ∧
  (∀ c, c ∈ tag_fields → c ∉ headers raw →
     load_data raw
     = Raise (KeyError (filter (λ c, c ∉ headers raw) tag_fields))).
Proof.
  intros Hlen. rewrite load_data_spec, decide_True by done.
  destruct (filter (λ c, c ∉ headers raw) tag_fields) as [|c0 cs] eqn:E; split.
  - eauto.
  - intros c Hc Hn.
    assert (c ∈ filter (λ c, c ∉ headers raw) tag_fields) as Hin
      by by apply list_elem_of_filter.
    rewrite E in Hin. by apply not_elem_of_nil in Hin.
  - intros Hsub.
    assert (c0 ∈ filter (λ c, c ∉ headers raw) tag_fields) as Hin
      by (rewrite E; left).
    apply list_elem_of_filter in Hin as [Hn Hc]. by apply Hsub in Hc.
  - done.
Qed.

Lemma load_data_missing_columns_witness :
  (tag_fields ⊆ headers no_owner → ∃ df, load_data no_owner = Ok df) ∧
  (∀ c, c ∈ tag_fields → c ∉ headers no_owner →
     load_data no_owner
     = Raise (KeyError (filter (λ c, c ∉ headers no_owner) tag_fields))).
Proof.
  apply (load_data_missing_columns no_owner).
  repeat constructor; simpl; lia.
Defined.

(** C7 (counterexample).  A header without [MonthlyCostUSD], [Tagged],
    [Service] and [Region] is loaded without complaint. *)
Lemma load_data_accepts_missing_required :
  Forall (λ c, c ∈ required_columns ∧ c ∉ headers tags_only)
    ["MonthlyCostUSD"; "Tagged"; "Service"; "Region"] ∧
  (λ df, length (rows df)) <$> load_data tags_only = Ok 1.
Proof. elems_tac. Qed.

Example load_data_no_owner :
  load_data no_owner = Raise (KeyError ["Owner"]).
Proof. elem_tac. Qed.

(** C9.  [remediate] works on a copy: the object it returns is a new one,
    and the loaded frame, like every other object of the store, is after
    the merge what it was before. *)
Theorem remediate_leaves_base (df out : ref) (edited_df : DataFrame)
    (h h' : store) :
  remediate df edited_df h = Ok (out, h') →
  out ≠ df ∧ h !! out = None ∧ h' !! df = h !! df ∧
  ∀ l, is_Some (h !! l) → h' !! l = h !! l.
Proof.
  unfold remediate. intros (l & h1 & Hcopy & Hrest)%Py_bind_Ok.
  apply copy_Ok in Hcopy as (d & Hd & Hl & Hh1). subst l h1.
  pose proof (fresh_ref_unused h) as Hfresh.
  assert (out = fresh (dom h)) as Hout.
  { pose proof Hrest as H.
    apply Py_bind_Ok in H as (u & h2 & _ & H).
    apply Py_bind_Ok in H as (u' & h3 & _ & H).
    by injection H as <- _. }
  subst out.
  assert (∀ l, is_Some (h !! l) → h' !! l = h !! l) as Hframe.
  { intros l [d' Hl].
    assert (l ≠ fresh (dom h)) as Hne by (intros E; rewrite E in Hl; congruence).
    rewrite (remediate_body_writes_only _ _ _ _ _ Hrest l Hne).
    by apply lookup_insert_ne. }
  split; [intros E; rewrite <-E in Hd; congruence|]. split; [done|]. split; [|done].
  apply Hframe. by exists d.
Qed.

Lemma remediate_leaves_base_witness :
  remediate 1 edits_R1 session
  = Ok (2%positive, <[2%positive := merged_R1]> session) ∧
  2%positive ≠ 1%positive ∧ session !! 2%positive = None ∧
  (<[2%positive := merged_R1]> session) !! 1%positive = session !! 1%positive ∧
  ∀ l, is_Some (session !! l) →
       (<[2%positive := merged_R1]> session) !! l = session !! l.
Proof.
  split; [elem_tac|].
  apply (remediate_leaves_base 1 2 edits_R1 session
           (<[2%positive := merged_R1]> session)).
  elem_tac.
Defined.

(** C3.  In the frame [remediate] returns, every row, edited or not,
    carries as its score the number of its five tag fields that are not
    absent (and as its percentage that number over 5, times 100). *)
Theorem remediate_scores_every_row (df out : ref) (edited_df merged : DataFrame)
    (h h' : store) :
  remediate df edited_df h = Ok (out, h') →
  h' !! out = Some merged →
  ∀ r, r ∈ rows merged →
    at_col r "TagCompletenessScore"
    = Num (Qc_of_nat (length (filter (λ c, notna (at_col r c) = true)
                                tag_fields))) ∧
    at_col r "TagCompletenessPercentage"
    = Num (Qc_of_nat (count_notna r tag_fields)
           / Qc_of_nat 5 * Qc_of_nat 100)%Qc.
Proof.
  unfold remediate. intros (l & h1 & _ & Hrest)%Py_bind_Ok Hout r Hr.
  apply Py_bind_Ok in Hrest as (u & h2 & _ & Hrest).
  apply Py_bind_Ok in Hrest as (u' & h3 & Hscore & Hret).
  injection Hret as <- <-.
  apply update_Ok in Hscore as (d & d' & _ & Hd' & ->).
  rewrite lookup_insert_eq in Hout. injection Hout as <-.
  rewrite score_tags_spec in Hd'.
  destruct (filter _ tag_fields); [|done]. injection Hd' as <-.
  cbn [scored rows] in Hr. apply list_elem_of_fmap in Hr as (r0 & -> & _).
  split; [apply score_row_score|apply score_row_percentage].
Qed.

Lemma remediate_scores_every_row_witness :
  remediate 1 edits_R1 session
  = Ok (2%positive, <[2%positive := merged_R1]> session) ∧
  length (rows merged_R1) = 3 ∧
  ∀ r, r ∈ rows merged_R1 →
    at_col r "TagCompletenessScore"
    = Num (Qc_of_nat (length (filter (λ c, notna (at_col r c) = true)
                                tag_fields))) ∧
    at_col r "TagCompletenessPercentage"
    = Num (Qc_of_nat (count_notna r tag_fields)
           / Qc_of_nat 5 * Qc_of_nat 100)%Qc.
Proof.
  split; [elem_tac|]. split; [elem_tac|].
  apply (remediate_scores_every_row 1 2 edits_R1 merged_R1 session
           (<[2%positive := merged_R1]> session)); elem_tac.
Defined.

(** C2 (as amended).  [remediate] checks no value.  When it returns, on a
    frame that has the edit columns, each row of the result holds, in
    every edit column of the edited table, the cell of the last edited
    row bearing its identifier, whatever that cell is: an [Environment] or
    a [Tagged] outside the sets the editor offers is stored like any
    other value. *)
Theorem remediate_checks_no_value (df out : ref)
    (edited_df base merged : DataFrame) (h h' : store) :
  h !! df = Some base →
  edit_columns ⊆ columns base →
  remediate df edited_df h = Ok (out, h') →
  h' !! out = Some merged →
  ∀ i r e,
    rows base !! i = Some r → last_match (rows edited_df) r e →
    ∃ r', rows merged !! i = Some r' ∧
      ∀ col, col ∈ edit_columns → col ∈ columns edited_df →
        at_col r' col = at_col e col.
Proof.
  intros Hdf Hsub Hrun Hout i r e Hi Hlast.
  rewrite (remediate_Ok_inv _ _ _ _ _ _ Hdf Hsub Hrun) in Hout.
  injection Hout as <-.
  exists (score_row (apply_edits (columns edited_df) (rows edited_df) r)).
  split.
  - unfold remediated. cbn [scored rows]. by rewrite !list_lookup_fmap, Hi.
  - intros col Hcol Hin.
    destruct (edit_columns_not_scores col Hcol) as [H1 H2].
    rewrite at_col_score_row by done. by apply apply_edits_last_match.
Qed.

Lemma remediate_checks_no_value_witness :
  remediate 1 edits_staging session
  = Ok (2%positive, <[2%positive := merged_staging]> session) ∧
  ∀ i r e,
    rows loaded_inventory !! i = Some r →
    last_match (rows edits_staging) r e →
    ∃ r', rows merged_staging !! i = Some r' ∧
      ∀ col, col ∈ edit_columns → col ∈ columns edits_staging →
        at_col r' col = at_col e col.
Proof.
  split; [elem_tac|].
  apply (remediate_checks_no_value 1 2 edits_staging loaded_inventory
           merged_staging session (<[2%positive := merged_staging]> session));
    elem_tac.
Defined.

(** C2 (counterexample).  An edited row with [Environment = "Staging"] and
    [Tagged = "Maybe"] is not rejected: the merge returns, and the merged
    row holds both values. *)
Lemma invalid_values_are_merged :
  (Str "Staging" ∉ [Str "Prod"; Str "Dev"; Str "Test"]) ∧
  (Str "Maybe" ∉ [Str "Yes"; Str "No"]) ∧
  cells_at edits_staging 0 ["ResourceID"; "Environment"; "Tagged"]
  = [Str "R1"; Str "Staging"; Str "Maybe"] ∧
  remediate 1 edits_staging session
  = Ok (2%positive, <[2%positive := merged_staging]> session) ∧
  cells_at merged_staging 0 ["ResourceID"; "Environment"; "Tagged"]
  = [Str "R1"; Str "Staging"; Str "Maybe"].
Proof. elems_tac. Qed.

(** C1 (as amended).  On a frame that has the edit columns, the merge
    keeps the number and order of the rows, the [ResourceID] of every row,
    every column outside the ten edit columns (the two scores are
    computed anew), and every cell of a row whose identifier no edited
    row bears.  [Service], [Region] and [MonthlyCostUSD] of a row are kept
    when the last edited row bearing its identifier holds the same cell:
    the loop writes all ten edit columns and checks none. *)
Theorem remediate_frame (df out : ref) (edited_df base merged : DataFrame)
    (h h' : store) :
  h !! df = Some base →
  edit_columns ⊆ columns base →
  remediate df edited_df h = Ok (out, h') →
  h' !! out = Some merged →
  length (rows merged) = length (rows base) ∧
  ∀ i r r',
    rows base !! i = Some r → rows merged !! i = Some r' →
    at_col r' "ResourceID" = at_col r "ResourceID" ∧
    (∀ col, col ∉ edit_columns →
            col ≠ "TagCompletenessScore" → col ≠ "TagCompletenessPercentage" →
            at_col r' col = at_col r col) ∧
    (Forall (λ e, ¬ matches r e) (rows edited_df) →
     ∀ col, col ≠ "TagCompletenessScore" → col ≠ "TagCompletenessPercentage" →
            at_col r' col = at_col r col) ∧
    (∀ e col, last_match (rows edited_df) r e →
              col ∈ ["Service"; "Region"; "MonthlyCostUSD"] →
              at_col e col = at_col r col →
              at_col r' col = at_col r col).
Proof.
  intros Hdf Hsub Hrun Hout.
  rewrite (remediate_Ok_inv _ _ _ _ _ _ Hdf Hsub Hrun) in Hout.
  injection Hout as <-. unfold remediated. cbn [scored rows].
  split; [by rewrite !length_fmap|].
  intros i r r' Hr Hr'. rewrite !list_lookup_fmap, Hr in Hr'.
  injection Hr' as <-. split; [|split; [|split]].
  - rewrite at_col_score_row by done. apply apply_edits_ResourceID.
  - intros col Hcol H1 H2. rewrite at_col_score_row by done.
    apply apply_edits_keeps. by left.
  - intros Hno col H1 H2. rewrite at_col_score_row by done.
    by rewrite apply_edits_no_match.
  - intros e col Hlast Hcol Heq.
    assert (col ∈ edit_columns) as Hedit.
    { revert Hcol. rewrite !elem_of_cons.
      intros [->|[->|[->|[]%not_elem_of_nil]]]; elem_tac. }
    destruct (edit_columns_not_scores col Hedit) as [H1 H2].
    rewrite at_col_score_row by done.
    destruct (decide (col ∈ columns edited_df)) as [Hin|Hn].
    + rewrite <-Heq. by apply apply_edits_last_match.
    + apply apply_edits_keeps. by right.
Qed.

Lemma remediate_frame_witness :
  remediate 1 edits_R1 session
  = Ok (2%positive, <[2%positive := merged_R1]> session) ∧
  length (rows merged_R1) = length (rows loaded_inventory) ∧
  ∀ i r r',
    rows loaded_inventory !! i = Some r → rows merged_R1 !! i = Some r' →
    at_col r' "ResourceID" = at_col r "ResourceID" ∧
    (∀ col, col ∉ edit_columns →
            col ≠ "TagCompletenessScore" → col ≠ "TagCompletenessPercentage" →
            at_col r' col = at_col r col) ∧
    (Forall (λ e, ¬ matches r e) (rows edits_R1) →
     ∀ col, col ≠ "TagCompletenessScore" → col ≠ "TagCompletenessPercentage" →
            at_col r' col = at_col r col) ∧
    (∀ e col, last_match (rows edits_R1) r e →
              col ∈ ["Service"; "Region"; "MonthlyCostUSD"] →
              at_col e col = at_col r col →
              at_col r' col = at_col r col).
Proof.
  split; [elem_tac|].
  apply (remediate_frame 1 2 edits_R1 loaded_inventory merged_R1 session
           (<[2%positive := merged_R1]> session)); elem_tac.
Defined.

(** C1 (counterexample).  The edited row for [R1] carries [Lambda] as its
    [Service]; the merged row for [R1] holds [Lambda], not the [EC2] of the
    base row. *)
Lemma edited_service_is_written :
  remediate 1 edits_service session
  = Ok (2%positive, <[2%positive := merged_service]> session) ∧
  cells_at loaded_inventory 0 ["ResourceID"; "Service"]
  = [Str "R1"; Str "EC2"] ∧
  cells_at merged_service 0 ["ResourceID"; "Service"]
  = [Str "R1"; Str "Lambda"].
Proof. elems_tac. Qed.

(** Two resources under one identifier, and an operator who changes
    nothing in the editor: the write-back copies the untagged row's
    [Service], [Region] and [MonthlyCostUSD] into the tagged row. *)
Example shared_identifier_write_back :
  (λ res, match res with
          | (Some (_, _, out, _), h') => h' !! out
          | _ => None
          end) <$> show_remediation_page 1 id session_shared_id
  = Ok (Some merged_shared_id) ∧
  cells_at loaded_shared_id 0
    ["ResourceID"; "Tagged"; "Service"; "Region"; "MonthlyCostUSD"]
  = [Str "R1"; Str "Yes"; Str "S3"; Str "us-west-2"; Num (Qc_of_nat 50)] ∧
  cells_at merged_shared_id 0
    ["ResourceID"; "Tagged"; "Service"; "Region"; "MonthlyCostUSD"]
  = [Str "R1"; Str "No"; Str "EC2"; Str "us-east-1"; Num (Qc_of_nat 100)].
Proof. elems_tac. Qed.




(** Equal rows are the other way to lose the round trip: the write-back
    makes the two rows under one identifier equal, and the loader keeps
    one of them. *)
Example round_trip_drops_equal_rows :
  remediate 1 untouched_shared_id session_shared_id
  = Ok (2%positive, <[2%positive := merged_shared_id]> session_shared_id) ∧
  length (rows merged_shared_id) = 2 ∧
  (λ df, length (rows df)) <$> load_data (to_csv merged_shared_id) = Ok 1.
Proof. elems_tac. Qed.

(** * Further properties *)

(** ** The filters of the analytics page *)

Lemma where_eq_spec (df : DataFrame) (c : string) (v : cell) :
  where_eq df c v =
    if decide (c ∈ columns df)
    then Ok {| columns := columns df;
               rows := filter (λ r, cell_eq (at_col r c) v = true) (rows df) |}
    else Raise (KeyError [c]).
Proof.
  unfold where_eq, getitem. case_decide; [|done].
  cbn [mbind result_bind]. f_equal. rewrite <-list_fmap_compose.
  unfold getmask at 1. f_equal.
  apply (getmask_rows df (λ r, cell_eq (at_col r c) v)).
Qed.

Lemma apply_filter_Ok (df out : DataFrame) (c : string) (selected : cell) :
  apply_filter df c selected = Ok out →
  columns out = columns df ∧
  rows out = filter (passes selected c) (rows df).
Proof.
  unfold apply_filter. case_decide as Hsel.
  - rewrite where_eq_spec. case_decide; [|done]. intros [= <-].
    split; [done|]. cbn [rows]. apply list_filter_iff. intros r.
    unfold passes. tauto.
  - intros [= <-]. split; [done|]. symmetry. apply filter_all.
    intros r _. left. by destruct (decide (selected = Str "All")).
Qed.

Lemma apply_filters_Ok (df out : DataFrame) (sel : Selection) :
  apply_filters df sel = Ok out →
  columns out = columns df ∧ rows out = filter (selects sel) (rows df).
Proof.
  unfold apply_filters. intros H.
  apply bind_Ok in H as (d1 & [Hc1 Hr1]%apply_filter_Ok & H).
  apply bind_Ok in H as (d2 & [Hc2 Hr2]%apply_filter_Ok & H).
  apply bind_Ok in H as (d3 & [Hc3 Hr3]%apply_filter_Ok & H).
  apply apply_filter_Ok in H as [Hc4 Hr4].
  split; [congruence|].
  rewrite Hr4, Hr3, Hr2, Hr1, !list_filter_filter.
  apply list_filter_iff. intros r. unfold selects. tauto.
Qed.

Lemma apply_filter_is_Ok (df : DataFrame) (c : string) (selected : cell) :
  (∃ out, apply_filter df c selected = Ok out) ↔
  (selected ≠ Str "All" → c ∈ columns df).
Proof.
  unfold apply_filter. case_decide as Hsel.
  - rewrite where_eq_spec. case_decide as Hc.
    + split; [done|eauto].
    + split; [by intros [out ?]|]. intros H. exfalso. by apply Hc, H.
  - split; [done|eauto].
Qed.

(** X1.  The four filters act as one conjunction: the view has the columns
    of the frame and, in their order, exactly the rows that pass every
    filter with a choice other than [All]. *)
Theorem apply_filters_conjunction (df out : DataFrame) (sel : Selection) :
  apply_filters df sel = Ok out →
  columns out = columns df ∧ rows out = filter (selects sel) (rows df).
Proof. apply apply_filters_Ok. Qed.

Lemma apply_filters_conjunction_witness :
  apply_filters loaded_inventory west_only = Ok west_view ∧
  columns west_view = columns loaded_inventory ∧
  rows west_view = filter (selects west_only) (rows loaded_inventory).
Proof.
  split; [elem_tac|].
  apply (apply_filters_conjunction loaded_inventory west_view west_only).
  elem_tac.
Defined.

(** X2.  A filter left on [All] does not read its column: the filters
    succeed exactly when the frame has every column with a choice other
    than [All]. *)
Theorem apply_filters_succeeds_iff (df : DataFrame) (sel : Selection) :
  (∃ out, apply_filters df sel = Ok out) ↔ filtered_columns sel ⊆ columns df.
Proof.
  assert (filtered_columns sel ⊆ columns df ↔
          (selected_service sel ≠ Str "All" → "Service" ∈ columns df) ∧
          (selected_region sel ≠ Str "All" → "Region" ∈ columns df) ∧
          (selected_department sel ≠ Str "All" → "Department" ∈ columns df) ∧
          (selected_environment sel ≠ Str "All" → "Environment" ∈ columns df))
    as ->.
  { unfold filtered_columns. split.
    - intros Hsub. repeat split; intros Hsel; apply Hsub;
        rewrite !elem_of_app; rewrite (decide_True _ _ Hsel);
        rewrite list_elem_of_singleton; tauto.
    - intros (H1 & H2 & H3 & H4) c. rewrite !elem_of_app.
      repeat case_decide;
        rewrite ?list_elem_of_singleton, ?elem_of_nil by done;
        intros [?|[?|[?|?]]]; subst; tauto. }
  unfold apply_filters. split.
  - intros [out H].
    apply bind_Ok in H as (d1 & H1 & H).
    apply bind_Ok in H as (d2 & H2 & H).
    apply bind_Ok in H as (d3 & H3 & H).
    pose proof (apply_filter_Ok _ _ _ _ H1) as [Hc1 _].
    pose proof (apply_filter_Ok _ _ _ _ H2) as [Hc2 _].
    pose proof (apply_filter_Ok _ _ _ _ H3) as [Hc3 _].
    rewrite <-Hc1 at 2 3 4. rewrite <-Hc2 at 2 3. rewrite <-Hc3 at 2.
    repeat split; apply apply_filter_is_Ok; eauto.
  - intros (H1 & H2 & H3 & H4).
    apply apply_filter_is_Ok in H1 as [d1 H1].
    pose proof (apply_filter_Ok _ _ _ _ H1) as [Hc1 _].
    rewrite <-Hc1 in H2, H3, H4.
    apply apply_filter_is_Ok in H2 as [d2 H2].
    pose proof (apply_filter_Ok _ _ _ _ H2) as [Hc2 _].
    rewrite <-Hc2 in H3, H4.
    apply apply_filter_is_Ok in H3 as [d3 H3].
    pose proof (apply_filter_Ok _ _ _ _ H3) as [Hc3 _].
    rewrite <-Hc3 in H4.
    apply apply_filter_is_Ok in H4 as [d4 H4].
    exists d4. rewrite H1. cbn [mbind result_bind]. rewrite H2.
    cbn [mbind result_bind]. by rewrite H3.
Qed.

Lemma passes_choice (selected : cell) (c : string) (r : row) :
  passes selected c r → selected ≠ Str "All" →
  at_col r c = selected ∧ at_col r c ≠ NaN.
Proof.
  intros [?|Heq] Hsel; [done|]. apply cell_eq_true in Heq as Hr.
  split; [done|]. intros Hnan. rewrite Hnan in Heq. done.
Qed.

(** X3.  In the view, a column filtered by a choice other than [All]
    holds that choice in every row: the comparison is exact, and a row
    whose cell is absent never passes. *)
Theorem filtered_rows_hold_choice (df out : DataFrame) (sel : Selection) :
  apply_filters df sel = Ok out →
  ∀ r, r ∈ rows out →
    r ∈ rows df ∧
    (selected_service sel ≠ Str "All" →
     at_col r "Service" = selected_service sel ∧ at_col r "Service" ≠ NaN) ∧
    (selected_region sel ≠ Str "All" →
     at_col r "Region" = selected_region sel ∧ at_col r "Region" ≠ NaN) ∧
    (selected_department sel ≠ Str "All" →
     at_col r "Department" = selected_department sel ∧
     at_col r "Department" ≠ NaN) ∧
    (selected_environment sel ≠ Str "All" →
     at_col r "Environment" = selected_environment sel ∧
     at_col r "Environment" ≠ NaN).
Proof.
  intros [_ Hrows]%apply_filters_Ok r Hr. rewrite Hrows in Hr.
  apply list_elem_of_filter in Hr as [(H1 & H2 & H3 & H4) Hr].
  split; [done|].
  split; [|split; [|split]]; intros Hsel; by eapply passes_choice.
Qed.

Lemma filtered_rows_hold_choice_witness :
  apply_filters loaded_inventory west_only = Ok west_view ∧
  length (rows west_view) = 2 ∧
  ∀ r, r ∈ rows west_view →
    r ∈ rows loaded_inventory ∧
    (selected_service west_only ≠ Str "All" →
     at_col r "Service" = selected_service west_only ∧
     at_col r "Service" ≠ NaN) ∧
    (selected_region west_only ≠ Str "All" →
     at_col r "Region" = selected_region west_only ∧
     at_col r "Region" ≠ NaN) ∧
    (selected_department west_only ≠ Str "All" →
     at_col r "Department" = selected_department west_only ∧
     at_col r "Department" ≠ NaN) ∧
    (selected_environment west_only ≠ Str "All" →
     at_col r "Environment" = selected_environment west_only ∧
     at_col r "Environment" ≠ NaN).
Proof.
  split; [elem_tac|]. split; [elem_tac|].
  apply (filtered_rows_hold_choice loaded_inventory west_view west_only).
  elem_tac.
Defined.

(** ** The choices of a filter *)

Global Instance cell_le_total : Total cell_le.
Proof.
  intros [|s|p] [|t|q]; simpl; try tauto.
  - apply String.leb_total.
  - apply (total Qcle).
Qed.

Lemma sorted_Ok (vs out : list cell) :
  sorted vs = Ok out → out ≡ₚ vs ∧ Sorted cell_le out.
Proof.
  unfold sorted. destruct (_ || _); [|done]. intros [= <-].
  split; [apply merge_sort_Permutation|apply Sorted_merge_sort, _].
Qed.

Lemma elem_of_present_values (df : DataFrame) (c : string) (v : cell) :
  v ∈ keep_first (filter (λ v, notna v = true) ((λ r, at_col r c) <$> rows df))
  ↔ v ≠ NaN ∧ ∃ r, r ∈ rows df ∧ at_col r c = v.
Proof.
  rewrite elem_of_keep_first, list_elem_of_filter, list_elem_of_fmap.
  split.
  - intros [Hv (r & -> & Hr)]. split; [|eauto]. intros Hn. by rewrite Hn in Hv.
  - intros [Hv (r & Hr & <-)]. split; [|eauto]. by destruct (at_col r c).
Qed.

(** X4.  The choices of a filter are [All] followed by the values present
    in the column: each value some row holds is offered once, an absent
    value is never offered, and the values come in ascending order. *)
Theorem filter_options_spec (df : DataFrame) (c : string) (opts : list cell) :
  filter_options df c = Ok opts →
  ∃ values, opts = Str "All" :: values ∧
    NoDup values ∧ Sorted cell_le values ∧
    ∀ v, v ∈ values ↔ v ≠ NaN ∧ ∃ r, r ∈ rows df ∧ at_col r c = v.
Proof.
  unfold filter_options, getitem. case_decide as Hc; [|done].
  cbn [mbind result_bind]. intros H.
  apply bind_Ok in H as (values & [Hperm Hsorted]%sorted_Ok & [= <-]).
  exists values. split; [done|]. split; [|split; [done|]].
  - rewrite Hperm. apply NoDup_keep_first.
  - intros v. rewrite Hperm. apply elem_of_present_values.
Qed.

Lemma filter_options_spec_witness :
  filter_options loaded_inventory "Service"
  = Ok [Str "All"; Str "EC2"; Str "RDS"; Str "S3"] ∧
  ∃ values, [Str "All"; Str "EC2"; Str "RDS"; Str "S3"] = Str "All" :: values ∧
    NoDup values ∧ Sorted cell_le values ∧
    ∀ v, v ∈ values ↔
         v ≠ NaN ∧ ∃ r, r ∈ rows loaded_inventory ∧ at_col r "Service" = v.
Proof.
  split; [elem_tac|].
  apply (filter_options_spec loaded_inventory "Service"). elem_tac.
Defined.

Lemma forallb_false_elem {A} (f : A → bool) (l : list A) :
  forallb f l = false → ∃ x, x ∈ l ∧ f x = false.
Proof.
  induction l as [|x l IH]; [done|]. cbn [forallb].
  destruct (f x) eqn:Ex; cbn [andb].
  - intros (y & Hy & Hfy)%IH. exists y. split; [by right|done].
  - intros _. exists x. split; [left|done].
Qed.

Lemma sorted_is_Ok (vs : list cell) :
  Forall (λ v, v ≠ NaN) vs →
  (∃ out, sorted vs = Ok out) ↔
  ¬ ∃ a b, a ∈ vs ∧ b ∈ vs ∧ is_str a = true ∧ is_num b = true.
Proof.
  intros Hpresent. unfold sorted.
  destruct (forallb is_str vs) eqn:Es; cbn [orb].
  - split; [|eauto]. intros _ (a & b & Ha & Hb & Hsa & Hnb).
    apply Is_true_true, forallb_True in Es. rewrite Forall_forall in Es.
    apply Es, Is_true_true in Hb. by destruct b.
  - destruct (forallb is_num vs) eqn:En.
    + split; [|eauto]. intros _ (a & b & Ha & Hb & Hsa & Hnb).
      apply Is_true_true, forallb_True in En. rewrite Forall_forall in En.
      apply En, Is_true_true in Ha. by destruct a.
    + split; [by intros [out ?]|]. intros Hno. exfalso. apply Hno.
      destruct (forallb_false_elem _ _ Es) as (b & Hb & Hbs).
      destruct (forallb_false_elem _ _ En) as (a & Ha & Han).
      rewrite Forall_forall in Hpresent.
      exists a, b. repeat split; [done|done| |].
      * specialize (Hpresent a Ha). by destruct a.
      * specialize (Hpresent b Hb). by destruct b.
Qed.

(** X5.  The choices of a filter can be computed exactly when the frame
    has the column and the column does not hold a string in one row and
    a number in another (which [sorted] cannot compare). *)
Theorem filter_options_succeeds_iff (df : DataFrame) (c : string) :
  (∃ opts, filter_options df c = Ok opts) ↔
  c ∈ columns df ∧ ¬ mixed_column df c.
Proof.
  unfold filter_options, getitem. case_decide as Hc.
  2:{ split; [by intros [opts ?]|by intros [? _]]. }
  cbn [mbind result_bind].
  set (vs := keep_first (filter (λ v, notna v = true)
                           ((λ r, at_col r c) <$> rows df))).
  assert (Forall (λ v, v ≠ NaN) vs) as Hpresent.
  { apply Forall_forall. intros v Hv. by apply elem_of_present_values in Hv as [? _]. }
  assert ((∃ a b, a ∈ vs ∧ b ∈ vs ∧ is_str a = true ∧ is_num b = true)
          ↔ mixed_column df c) as Hmixed.
  { unfold mixed_column. split.
    - intros (a & b & Ha & Hb & Hsa & Hnb).
      apply elem_of_present_values in Ha as [_ (r1 & Hr1 & Ha)].
      apply elem_of_present_values in Hb as [_ (r2 & Hr2 & Hb)].
      destruct a as [|s|p]; try done. destruct b as [|t|q]; try done.
      by exists r1, r2, s, q.
    - intros (r1 & r2 & s & q & Hr1 & Hr2 & H1 & H2).
      exists (Str s), (Num q).
      split; [|split; [|done]]; apply elem_of_present_values; split;
        try done; eauto. }
  rewrite <-Hmixed, <-(sorted_is_Ok vs Hpresent). split.
  - intros [opts H]. split; [done|].
    apply bind_Ok in H as (values & Hs & _). eauto.
  - intros [_ [values Hs]]. exists (Str "All" :: values). by rewrite Hs.
Qed.

(** An example of the two ways to fail. *)
Example filter_options_errors :
  filter_options mixed_owner "Owner" = Raise TypeError ∧
  filter_options mixed_owner "Service" = Raise (KeyError ["Service"]).
Proof. elems_tac. Qed.

(** ** The metrics the analytics page shows *)



(** ** Metrics: when they exist and where they lie *)

Lemma series_total_is_Ok (rs : list row) (c : string) :
  (∃ t, series_total ((λ r, at_col r c) <$> rs) = Ok t) ↔
  Forall (λ r, is_str (at_col r c) = false) rs.
Proof.
  induction rs as [|r rs IH]; [split; [constructor|by exists 0%Qc]|].
  rewrite fmap_cons, Forall_cons, <-IH. cbn [series_total].
  destruct (at_col r c) as [|s|q]; cbn [is_str].
  - tauto.
  - split; [by intros [t ?]|by intros [? _]].
  - split.
    + intros [t (t' & Ht' & _)%bind_Ok]. eauto.
    + intros [_ [t' Ht']]. exists (q + t')%Qc. by rewrite Ht'.
Qed.

Lemma fill_missing_is_Ok (rs : list row) (c : string) :
  (∃ vs, fill_missing ((λ r, at_col r c) <$> rs) = Ok vs) ↔
  Forall (λ r, is_str (at_col r c) = false) rs.
Proof.
  induction rs as [|r rs IH]; [split; [constructor|by exists []]|].
  rewrite fmap_cons, Forall_cons, <-IH. cbn [fill_missing].
  destruct (at_col r c) as [|s|q]; cbn [is_str].
  - split.
    + intros [vs (vs' & Hvs' & _)%bind_Ok]. eauto.
    + intros [_ [vs' Hvs']]. exists (0%Qc :: vs'). by rewrite Hvs'.
  - split; [by intros [vs ?]|by intros [? _]].
  - split.
    + intros [vs (vs' & Hvs' & _)%bind_Ok]. eauto.
    + intros [_ [vs' Hvs']]. exists (q :: vs'). by rewrite Hvs'.
Qed.

Lemma series_sum_is_Ok (rs : list row) (c : string) :
  (∃ t, series_sum ((λ r, at_col r c) <$> rs) = Ok t) ↔
  Forall (λ r, is_str (at_col r c) = false) rs.
Proof.
  rewrite <-fill_missing_is_Ok. unfold series_sum. split.
  - intros [t (vs & Hvs & _)%bind_Ok]. eauto.
  - intros [vs Hvs]. rewrite Hvs. cbn [mbind result_bind]. eauto.
Qed.

Lemma column_sum_is_Ok (df : DataFrame) (c : string) :
  (∃ t, getitem df c ≫= series_sum = Ok t) ↔ summable df c.
Proof.
  unfold getitem, summable. case_decide as Hc.
  - cbn [mbind result_bind]. rewrite series_sum_is_Ok. tauto.
  - split; [by intros [t ?]|by intros [? _]].
Qed.

Lemma column_mean_is_Ok (df : DataFrame) (c : string) :
  (∃ a, getitem df c ≫= series_mean = Ok a) ↔ summable df c.
Proof.
  unfold getitem, summable. case_decide as Hc.
  2:{ split; [by intros [? ?]|by intros [? _]]. }
  cbn [mbind result_bind]. rewrite <-series_total_is_Ok.
  unfold series_mean. split.
  - intros [a (t & Ht & _)%bind_Ok]. split; [done|]. eauto.
  - intros [_ [t Ht]]. rewrite Ht. cbn [mbind result_bind]. eauto.
Qed.

Lemma calculate_metrics_needs (df : DataFrame) (m : Metrics) :
  calculate_metrics df = Ok m →
  "Tagged" ∈ columns df ∧ summable df "MonthlyCostUSD" ∧
  summable df "TagCompletenessScore".
Proof.
  intros H. unfold calculate_metrics in H.
  apply bind_Ok in H as (yes & Hyes & H).
  apply bind_Ok in H as (no & _ & H).
  apply bind_Ok in H as (tc & Htc & H).
  apply bind_Ok in H as (yes' & _ & H).
  apply bind_Ok in H as (yc & _ & H).
  apply bind_Ok in H as (no' & _ & H).
  apply bind_Ok in H as (nc & _ & H).
  apply bind_Ok in H as (avg & Havg & _).
  split; [|split].
  - unfold where_tagged, getitem in Hyes. by case_decide.
  - apply column_sum_is_Ok. eauto.
  - apply column_mean_is_Ok. eauto.
Qed.

Lemma calculate_metrics_returns (df : DataFrame) :
  "Tagged" ∈ columns df → summable df "MonthlyCostUSD" →
  summable df "TagCompletenessScore" →
  ∃ m, calculate_metrics df = Ok m.
Proof.
  intros Ht Hcost Hscore.
  assert (∀ v, ∃ sub, where_tagged df v = Ok sub ∧
                      ∃ t, getitem sub "MonthlyCostUSD" ≫= series_sum = Ok t)
    as Hsub.
  { intros v.
    assert (∃ sub, where_tagged df v = Ok sub) as [sub Hs].
    { unfold where_tagged, getitem. rewrite decide_True by done.
      cbn [mbind result_bind]. eauto. }
    destruct (where_tagged_Ok _ _ _ Hs) as [Hcols Hrows].
    exists sub. split; [done|]. apply column_sum_is_Ok.
    destruct Hcost as [Hc Hall]. split; [by rewrite Hcols|].
    rewrite Hrows. rewrite Forall_forall in Hall. apply Forall_forall.
    intros r [_ Hr]%list_elem_of_filter. by apply Hall. }
  destruct (Hsub "Yes") as (yes & Hyes & yc & Hyc).
  destruct (Hsub "No") as (no & Hno & nc & Hnc).
  apply column_sum_is_Ok in Hcost as [tc Htc].
  apply column_mean_is_Ok in Hscore as [avg Havg].
  unfold calculate_metrics. rewrite Hyes. cbn [mbind result_bind].
  rewrite Hno. cbn [mbind result_bind].
  rewrite Htc. cbn [mbind result_bind].
  rewrite Hyc. cbn [mbind result_bind].
  rewrite Hnc. cbn [mbind result_bind].
  rewrite Havg. cbn [mbind result_bind]. eauto.
Qed.

(** X7.  [calculate_metrics] returns exactly when the frame has the
    [Tagged] column and its cost and score columns exist and hold no
    string; absent cells never make it fail. *)
Theorem calculate_metrics_succeeds_iff (df : DataFrame) :
  (∃ m, calculate_metrics df = Ok m) ↔
  "Tagged" ∈ columns df ∧ summable df "MonthlyCostUSD" ∧
  summable df "TagCompletenessScore".
Proof.
  split.
  - intros [m H]. by apply (calculate_metrics_needs df m).
  - intros (Ht & Hcost & Hscore). by apply calculate_metrics_returns.
Qed.

Lemma Qc_of_nat_le (n m : nat) : n ≤ m → (Qc_of_nat n ≤ Qc_of_nat m)%Qc.
Proof.
  intros H. unfold Qc_of_nat. apply (proj1 (Z2Qc_inj_le _ _)). lia.
Qed.

Lemma Qc_of_nat_pos (n : nat) : 0 < n → (0 < Qc_of_nat n)%Qc.
Proof.
  intros H. unfold Qc_of_nat. rewrite <-Z2Qc_inj_0.
  apply (proj1 (Z2Qc_inj_lt _ _)). lia.
Qed.

Lemma Qc_of_nat_nonneg (n : nat) : (0 ≤ Qc_of_nat n)%Qc.
Proof.
  unfold Qc_of_nat. rewrite <-Z2Qc_inj_0.
  apply (proj1 (Z2Qc_inj_le _ _)). lia.
Qed.

(** A part over the whole, as a percentage. *)
Lemma percentage_bounds (x y : Qc) :
  (0 ≤ x)%Qc → (x ≤ y)%Qc → (0 < y)%Qc →
  (0 ≤ x / y * Qc_of_nat 100)%Qc ∧ (x / y * Qc_of_nat 100 ≤ Qc_of_nat 100)%Qc.
Proof.
  intros Hx Hxy Hy.
  assert (y ≠ 0%Qc) as Hy0 by (intros ->; by apply (irreflexivity Qclt 0%Qc)).
  assert (0 ≤ x / y)%Qc as Hq.
  { unfold Qcdiv. apply Qcmult_nonneg_nonneg; [done|].
    by apply Qclt_le_weak, Qcinv_pos. }
  assert (x / y ≤ 1)%Qc as Hq1.
  { apply (Qcmult_le_mono_pos_r _ _ y Hy).
    unfold Qcdiv. rewrite <-Qcmult_assoc, Qcmult_inv_l, Qcmult_1_r, Qcmult_1_l;
      done. }
  split.
  - apply Qcmult_nonneg_nonneg; [done|apply Qc_of_nat_nonneg].
  - rewrite <-(Qcmult_1_l (Qc_of_nat 100)) at 2.
    apply Qcmult_le_mono_nonneg_r; [apply Qc_of_nat_nonneg|done].
Qed.

(** The two guarded ratios, as [calculate_metrics] computes them from the
    other fields. *)
Lemma calculate_metrics_ratios (df : DataFrame) (m : Metrics) :
  calculate_metrics df = Ok m →
  tagging_rate m
  = (if decide (0 < total_resources m)%nat
     then Qc_of_nat (tagged_resources m) / Qc_of_nat (total_resources m)
          * Qc_of_nat 100
     else 0)%Qc ∧
  untagged_cost_pct m
  = (if decide (0 < total_cost m)%Qc
     then untagged_cost m / total_cost m * Qc_of_nat 100
     else 0)%Qc.
Proof.
  unfold calculate_metrics. intros H.
  apply bind_Ok in H as (y & _ & H). apply bind_Ok in H as (n & _ & H).
  apply bind_Ok in H as (tc & _ & H). apply bind_Ok in H as (y' & _ & H).
  apply bind_Ok in H as (yc & _ & H). apply bind_Ok in H as (n' & _ & H).
  apply bind_Ok in H as (nc & _ & H). apply bind_Ok in H as (a & _ & H).
  by injection H as <-.
Qed.

(** X8.  The tagging rate always lies between 0 and 100.  So does the
    share of the untagged cost when the costs are whole numbers, not
    negative, that add up to less than [2^53] (the sums are then exact;
    rounded sums of other costs can give a share above 100). *)
Theorem metrics_rates_bounded (df : DataFrame) (m : Metrics) :
  calculate_metrics df = Ok m →
  (0 ≤ tagging_rate m)%Qc ∧ (tagging_rate m ≤ Qc_of_nat 100)%Qc ∧
  (whole_costs (rows df) →
   (0 ≤ untagged_cost_pct m)%Qc ∧ (untagged_cost_pct m ≤ Qc_of_nat 100)%Qc).
Proof.
  intros H. destruct (calculate_metrics_ratios _ _ H) as [Hrate Hpct].
  destruct (calculate_metrics_Ok _ _ H) as (Ht & Hy & _ & Htc & _ & Hnc).
  assert (0 ≤ Qc_of_nat 100)%Qc as H100 by apply Qc_of_nat_nonneg.
  assert ((0 ≤ tagging_rate m)%Qc ∧ (tagging_rate m ≤ Qc_of_nat 100)%Qc)
    as [H1 H2].
  { rewrite Hrate.
    destruct (decide (0 < total_resources m)) as [Hpos|Hpos];
      [|split; [apply Qcle_refl|exact H100]].
    apply percentage_bounds.
    - apply Qc_of_nat_nonneg.
    - apply Qc_of_nat_le. rewrite Hy, Ht. apply length_filter.
    - by apply Qc_of_nat_pos. }
  split; [done|]. split; [done|]. intros Hwhole.
  rewrite double_sum_cost_exact in Htc, Hnc
    by (done || by apply whole_costs_filter).
  assert (Forall (λ r, 0 ≤ cost r)%Qc (rows df)) as Hcost.
  { destruct Hwhole as [Hrs _]. eapply Forall_impl; [exact Hrs|].
    apply whole_cost_nonneg. }
  rewrite Hpct.
  destruct (decide (0 < total_cost m)%Qc) as [Hpos|Hpos];
    [|split; [apply Qcle_refl|exact H100]].
  apply percentage_bounds; [| |done].
  - rewrite Hnc. apply sum_cost_nonneg.
    rewrite Forall_forall in Hcost. apply Forall_forall.
    intros r [_ Hr]%list_elem_of_filter. by apply Hcost.
  - rewrite Hnc, Htc. by apply sum_cost_filter_le.
Qed.

Lemma metrics_rates_bounded_witness :
  calculate_metrics west_view = Ok west_metrics ∧
  whole_costs (rows west_view) ∧
  (0 ≤ tagging_rate west_metrics)%Qc ∧
  (tagging_rate west_metrics ≤ Qc_of_nat 100)%Qc ∧
  (whole_costs (rows west_view) →
   (0 ≤ untagged_cost_pct west_metrics)%Qc ∧
   (untagged_cost_pct west_metrics ≤ Qc_of_nat 100)%Qc).
Proof.
  split; [elem_tac|]. split; [elem_tac|].
  apply (metrics_rates_bounded west_view west_metrics). elem_tac.
Defined.

(** ** The frames the program makes *)

Lemma count_notna_le (r : row) (cs : list string) :
  count_notna r cs ≤ length cs.
Proof. unfold count_notna. apply length_filter. Qed.

Lemma percentage_of_score (n : nat) :
  n ≤ 5 →
  (Qc_of_nat n / Qc_of_nat (length tag_fields) * Qc_of_nat 100)%Qc
  = Qc_of_nat (20 * n).
Proof.
  intros Hn. do 6 (destruct n as [|n]; [by apply Qc_is_canon|]). lia.
Qed.

(** X9.  In every frame made by [load_data] or [remediate], the score of
    a row is a whole number from 0 to 5 and the percentage is 20 times
    the score. *)
Theorem produced_scores_bounded (df : DataFrame) :
  produced df →
  ∀ r, r ∈ rows df →
    ∃ n, n ≤ 5 ∧
      at_col r "TagCompletenessScore" = Num (Qc_of_nat n) ∧
      at_col r "TagCompletenessPercentage" = Num (Qc_of_nat (20 * n)).
Proof.
  intros [_ (_ & _ & _ & Hrows)]%produced_well_formed r Hr.
  rewrite Forall_forall in Hrows. specialize (Hrows r Hr).
  exists (count_notna r tag_fields).
  pose proof (count_notna_le r tag_fields) as Hle.
  split; [done|]. rewrite <-Hrows at 1 3. split.
  - rewrite score_row_score. by rewrite count_notna_score_row.
  - unfold score_row. rewrite at_col_insert. by rewrite percentage_of_score.
Qed.

Lemma produced_scores_bounded_witness :
  produced merged_R1 ∧
  ∀ r, r ∈ rows merged_R1 →
    ∃ n, n ≤ 5 ∧
      at_col r "TagCompletenessScore" = Num (Qc_of_nat n) ∧
      at_col r "TagCompletenessPercentage" = Num (Qc_of_nat (20 * n)).
Proof.
  assert (produced merged_R1) as Hp.
  { apply (produced_merge loaded_inventory edits_R1 _ 1 2 session
             (<[2%positive := merged_R1]> session)); try elem_tac.
    apply (produced_load inventory); elem_tac. }
  split; [done|]. by apply (produced_scores_bounded merged_R1).
Defined.

(** X10.  A table with distinct header names and no score column is
    loaded into a frame with the header's columns followed by the two
    score columns, with no two equal rows, and with at most one row for
    each record. *)
Theorem load_data_distinct_rows (raw : RawTable) (df : DataFrame) :
  NoDup (headers raw) →
  "TagCompletenessScore" ∉ headers raw →
  "TagCompletenessPercentage" ∉ headers raw →
  load_data raw = Ok df →
  columns df
  = headers raw ++ ["TagCompletenessScore"; "TagCompletenessPercentage"] ∧
  NoDup (rows df) ∧
  length (rows df) ≤ length (records raw).
Proof.
  intros Hnd Hs Hp Hload.
  pose proof (load_data_no_duplicates raw df Hnd Hs Hp Hload) as Hrows.
  rewrite load_data_spec in Hload. case_decide; [|done].
  destruct (filter _ tag_fields); [|done]. injection Hload as <-.
  split; [|split; [done|]].
  - cbn [scored columns].
    assert (add_column (headers raw) "TagCompletenessScore"
            = headers raw ++ ["TagCompletenessScore"]) as ->
      by (unfold add_column; by rewrite decide_False).
    unfold add_column. rewrite decide_False; [by rewrite <-app_assoc|].
    rewrite elem_of_app, list_elem_of_singleton. by intros [?|?].
  - cbn [scored rows]. rewrite length_fmap.
    etrans; [|by rewrite <-(length_fmap (read_record (headers raw) load_na_values))].
    generalize (read_record (headers raw) load_na_values <$> records raw).
    intros l. induction l as [|x l IH]; [done|]. cbn [keep_first length].
    pose proof (length_filter (λ y, y ≠ x) (keep_first l)). lia.
Qed.

Lemma load_data_distinct_rows_witness :
  load_data shared_id = Ok loaded_shared_id ∧
  columns loaded_shared_id
  = headers shared_id ++ ["TagCompletenessScore"; "TagCompletenessPercentage"] ∧
  NoDup (rows loaded_shared_id) ∧
  length (rows loaded_shared_id) ≤ length (records shared_id).
Proof.
  split; [elem_tac|].
  apply (load_data_distinct_rows shared_id loaded_shared_id); elem_tac.
Defined.



(** ** The remediation page: errors and edge cases *)

(** X12.  With at least one edited row, [remediate] needs the identifier
    column on both sides: when the loaded frame or the edited table lacks
    [ResourceID], it raises a [KeyError] for it. *)
Theorem remediate_needs_ResourceID (df : ref) (edited_df base : DataFrame)
    (h : store) :
  h !! df = Some base →
  rows edited_df ≠ [] →
  "ResourceID" ∉ columns base ∨ "ResourceID" ∉ columns edited_df →
  remediate df edited_df h = Raise (KeyError ["ResourceID"]).
Proof.
  intros Hdf Hrows Hmissing. unfold remediate.
  unfold mbind at 1, Py_bind at 1. rewrite (copy_eq _ _ _ Hdf).
  destruct (rows edited_df) as [|e es]; [done|].
  unfold mbind at 1, Py_bind at 1. cbn [for_each].
  unfold mbind at 1, Py_bind at 1.
  unfold mbind at 1, Py_bind at 1.
  unfold mbind at 1, Py_bind at 1. unfold deref at 1.
  rewrite lookup_insert_eq. unfold lift at 1, getitem.
  destruct (decide ("ResourceID" ∈ columns base)) as [Hbase|Hbase]; [|done].
  unfold mbind at 1, Py_bind at 1. unfold lift at 1, row_item at 1.
  destruct Hmissing as [?|Hed]; [done|]. by rewrite decide_False.
Qed.

Lemma remediate_needs_ResourceID_witness :
  session !! 1%positive = Some loaded_inventory ∧
  rows edits_without_id ≠ [] ∧
  remediate 1 edits_without_id session = Raise (KeyError ["ResourceID"]).
Proof.
  split; [elem_tac|]. split; [elem_tac|].
  apply (remediate_needs_ResourceID 1 edits_without_id loaded_inventory session).
  - elem_tac.
  - elem_tac.
  - right. elem_tac.
Defined.

(** X13.  With no edited row, [remediate] returns a new object equal to
    the frame it was given (a frame the program made: its scores are
    already what scoring computes). *)
Theorem remediate_without_edits (df : ref) (edited_df base : DataFrame)
    (h : store) :
  h !! df = Some base →
  produced base →
  rows edited_df = [] →
  remediate df edited_df h
  = Ok (fresh (dom h), <[fresh (dom h) := base]> h).
Proof.
  intros Hdf [_ Hscored]%produced_well_formed Hrows. unfold remediate.
  unfold mbind at 1, Py_bind at 1. rewrite (copy_eq _ _ _ Hdf), Hrows.
  unfold mbind at 1, Py_bind at 1. cbn [for_each]. unfold mret at 1, Py_ret at 1.
  unfold mbind at 1, Py_bind at 1. unfold update. rewrite lookup_insert_eq.
  rewrite score_tags_spec, filter_none.
  - by rewrite (scored_id _ Hscored), insert_insert_eq.
  - intros c Hc Hn. apply Hn. by apply Hscored.
Qed.

Lemma remediate_without_edits_witness :
  session !! 1%positive = Some loaded_inventory ∧
  rows no_edits = [] ∧
  remediate 1 no_edits session
  = Ok (fresh (dom session), <[fresh (dom session) := loaded_inventory]> session).
Proof.
  split; [elem_tac|]. split; [elem_tac|].
  apply (remediate_without_edits 1 no_edits loaded_inventory session).
  - elem_tac.
  - apply (produced_load inventory); elem_tac.
  - elem_tac.
Defined.

(** X14.  When no resource is untagged the page returns early: nothing is
    offered for editing, the frame is not copied for a merge, and the
    store is as it was. *)
Theorem page_without_untagged_rows (df : ref) (base : DataFrame)
    (data_editor : DataFrame → DataFrame) (h : store) (m : Metrics) :
  h !! df = Some base →
  calculate_metrics base = Ok m →
  filter (tagged_as "No") (rows base) = [] →
  show_remediation_page df data_editor h = Ok (None, h).
Proof.
  intros Hdf Hm Hnone. unfold show_remediation_page.
  unfold mbind at 1, Py_bind at 1. unfold deref. rewrite Hdf.
  unfold mbind at 1, Py_bind at 1. unfold lift at 1. rewrite Hm.
  assert (∃ u, where_tagged base "No" = Ok u) as [u Hu].
  { apply calculate_metrics_Ok in Hm as Hfields.
    unfold calculate_metrics in Hm.
    apply bind_Ok in Hm as (y & _ & Hm). apply bind_Ok in Hm as (n & Hn & _).
    eauto. }
  destruct (where_tagged_Ok _ _ _ Hu) as [_ Hrows].
  unfold mbind at 1, Py_bind at 1. unfold lift at 1. rewrite Hu.
  rewrite decide_True; [done|]. rewrite Hrows.
  exact (f_equal length Hnone).
Qed.

Lemma page_without_untagged_rows_witness :
  calculate_metrics all_tagged = Ok (metrics_or_zero all_tagged) ∧
  filter (tagged_as "No") (rows all_tagged) = [] ∧
  show_remediation_page 1 id {[ 1%positive := all_tagged ]}
  = Ok (None, {[ 1%positive := all_tagged ]}).
Proof.
  split; [elem_tac|]. split; [elem_tac|].
  apply (page_without_untagged_rows 1 all_tagged id _
           (metrics_or_zero all_tagged)); elem_tac.
Defined.

Lemma write_back_own (e r : row) :
  (∀ c, c ∈ edit_columns → is_Some (r !! c)) →
  (∀ c, c ∈ edit_columns → at_col e c = at_col r c) →
  write_back edit_columns e r = r.
Proof.
  intros Hdom Hsame. apply map_eq. intros k. rewrite lookup_write_back.
  case_decide as Hk; [|done]. destruct Hk as [Hk _].
  rewrite (Hsame k Hk). destruct (Hdom k Hk) as [v Hv].
  unfold at_col. by rewrite Hv.
Qed.

Lemma apply_edits_own (base : DataFrame) (es : list row) (r : row) :
  rectangular base → edit_columns ⊆ columns base →
  distinct_identifiers base →
  r ∈ rows base →
  Forall (λ e, ∃ r0, r0 ∈ rows base ∧
                     ∀ c, c ∈ edit_columns → at_col e c = at_col r0 c) es →
  apply_edits edit_columns es r = r.
Proof.
  intros [_ Hrect] Hsub Hids Hr. induction 1 as [|e es (r0 & Hr0 & He) _ IH];
    [done|].
  unfold apply_edits in *. cbn [foldl].
  assert (apply_edit edit_columns e r = r) as ->; [|done].
  unfold apply_edit. destruct (cell_eq _ _) eqn:Heq; [|done].
  assert (r = r0) as <-.
  { unfold distinct_identifiers in Hids. rewrite Forall_forall in Hids.
    specialize (Hids r Hr). rewrite Forall_forall in Hids.
    apply (Hids r0 Hr0). unfold matches.
    by rewrite <-(He "ResourceID" ResourceID_edit_column). }
  apply write_back_own; [|done]. intros c Hc.
  rewrite Forall_forall in Hrect. by apply (Hrect r Hr), Hsub.
Qed.

Lemma getitems_Ok (df sub : DataFrame) (cs : list string) :
  getitems df cs = Ok sub →
  cs ⊆ columns df ∧ columns sub = cs ∧
  rows sub = (λ r : row, filter (λ kv, kv.1 ∈ cs) r) <$> rows df.
Proof.
  unfold getitems. destruct (filter _ cs) as [|c0 l] eqn:E; [|done].
  intros [= <-]. split; [|done]. intros c Hc.
  destruct (decide (c ∈ columns df)) as [|Hn]; [done|].
  assert (c ∈ filter (λ c, c ∉ columns df) cs) as Hin
    by by apply list_elem_of_filter.
  rewrite E in Hin. by apply not_elem_of_nil in Hin.
Qed.

Lemma getitems_eq (df : DataFrame) (cs : list string) :
  cs ⊆ columns df →
  getitems df cs
  = Ok {| columns := cs;
          rows := (λ r : row, filter (λ kv, kv.1 ∈ cs) r) <$> rows df |}.
Proof.
  intros Hsub. unfold getitems. rewrite filter_none; [done|].
  intros c Hc Hn. by apply Hn, Hsub.
Qed.

(** X15.  On a frame the program made, with the edit columns and with no
    two different rows under one identifier, an operator who leaves the
    editor untouched gets the loaded frame back: the merged frame equals
    it, the metrics after equal the metrics before, and the CSV offered
    is that of the loaded frame. *)
Theorem untouched_editor_returns_base (df : ref) (base : DataFrame)
    (h : store) (m : Metrics) :
  h !! df = Some base →
  produced base →
  edit_columns ⊆ columns base →
  distinct_identifiers base →
  calculate_metrics base = Ok m →
  filter (tagged_as "No") (rows base) ≠ [] →
  show_remediation_page df id h
  = Ok (Some (m, m, fresh (dom h), to_csv base), <[fresh (dom h) := base]> h).
Proof.
  intros Hdf Hprod Hsub Hids Hm Hsome.
  destruct (produced_well_formed _ Hprod) as [Hrect Hscored].
  assert (∃ u, where_tagged base "No" = Ok u) as [u Hu].
  { pose proof Hm as Hm'. unfold calculate_metrics in Hm'.
    apply bind_Ok in Hm' as (y & _ & Hm'). apply bind_Ok in Hm' as (n & Hn & _).
    eauto. }
  destruct (where_tagged_Ok _ _ _ Hu) as [Hucols Hurows].
  unfold show_remediation_page.
  unfold mbind at 1, Py_bind at 1. unfold deref at 1. rewrite Hdf.
  unfold mbind at 1, Py_bind at 1. unfold lift at 1. rewrite Hm.
  unfold mbind at 1, Py_bind at 1. unfold lift at 1. rewrite Hu.
  rewrite decide_False.
  2:{ rewrite Hurows. intros Hlen. apply nil_length_inv in Hlen.
      by apply Hsome. }
  unfold mbind at 1, Py_bind at 1. unfold lift at 1.
  rewrite getitems_eq by by rewrite Hucols.
  unfold id at 1.
  set (offered := {| columns := edit_columns;
                     rows := (λ r : row, filter (λ kv, kv.1 ∈ edit_columns) r)
                             <$> rows u |}).
  unfold mbind at 1, Py_bind at 1.
  rewrite (remediate_spec df offered base h Hdf Hsub)
    by (left; apply ResourceID_edit_column).
  assert (remediated base offered = base) as ->.
  { unfold remediated.
    assert (apply_edits (columns offered) (rows offered) <$> rows base
            = rows base) as ->.
    { rewrite <-(list_fmap_id (rows base)) at 2. apply Forall_fmap_ext_1.
      apply Forall_forall. intros r Hr.
      apply (apply_edits_own base); try done.
      apply Forall_fmap, Forall_forall. intros r0 Hr0. unfold compose.
      exists r0. split.
      - rewrite Hurows in Hr0. by apply list_elem_of_filter in Hr0 as [_ ?].
      - intros c Hc. by apply at_col_filter_keys. }
    destruct base as [cs rs]. by apply scored_id. }
  unfold mbind at 1, Py_bind at 1. unfold deref at 1. rewrite lookup_insert_eq.
  unfold mbind at 1, Py_bind at 1. unfold lift at 1. by rewrite Hm.
Qed.

Lemma untouched_editor_returns_base_witness :
  distinct_identifiers loaded_inventory ∧
  calculate_metrics loaded_inventory = Ok (metrics_or_zero loaded_inventory) ∧
  filter (tagged_as "No") (rows loaded_inventory) ≠ [] ∧
  show_remediation_page 1 id session
  = Ok (Some (metrics_or_zero loaded_inventory,
              metrics_or_zero loaded_inventory,
              fresh (dom session), to_csv loaded_inventory),
        <[fresh (dom session) := loaded_inventory]> session).
Proof.
  split; [elem_tac|]. split; [elem_tac|]. split; [elem_tac|].
  apply (untouched_editor_returns_base 1 loaded_inventory session
           (metrics_or_zero loaded_inventory)); try elem_tac.
  apply (produced_load inventory); elem_tac.
Defined.

(** X16.  Whatever the operator does in the editor, a page that completes
    neither adds nor drops a resource: the metrics before and after count
    the same number of resources, the CSV offered has one record for each,
    and the loaded frame is still what it was. *)
Theorem page_keeps_resource_count (df out : ref) (base : DataFrame)
    (data_editor : DataFrame → DataFrame) (h h' : store)
    (before after : Metrics) (csv : RawTable) :
  h !! df = Some base →
  show_remediation_page df data_editor h
  = Ok (Some (before, after, out, csv), h') →
  total_resources before = length (rows base) ∧
  total_resources after = total_resources before ∧
  length (records csv) = total_resources before ∧
  h' !! df = Some base ∧ out ≠ df.
Proof.
  intros Hdf H. unfold show_remediation_page in H.
  apply Py_bind_Ok in H as (d & h0 & [Hd ->]%deref_Ok & H).
  rewrite Hdf in Hd. injection Hd as <-.
  apply Py_bind_Ok in H as (m & h0 & [Hm ->]%lift_Ok & H).
  apply Py_bind_Ok in H as (u & h0 & [Hu ->]%lift_Ok & H).
  case_decide as Hlen; [done|].
  apply Py_bind_Ok in H as (offered & h0 & [Hoff ->]%lift_Ok & H).
  apply Py_bind_Ok in H as (l & h1 & Hrun & H).
  apply Py_bind_Ok in H as (merged & h2 & [Hmerged ->]%deref_Ok & H).
  apply Py_bind_Ok in H as (m' & h2 & [Hm' ->]%lift_Ok & H).
  injection H as <- <- <- <- <-.
  destruct (where_tagged_Ok _ _ _ Hu) as [Hucols _].
  apply getitems_Ok in Hoff as (Hsub & _). rewrite Hucols in Hsub.
  pose proof (remediate_Ok_ResourceID _ _ _ base _ _ Hrun) as Hrid.
  rewrite (remediate_spec _ _ _ _ Hdf Hsub Hrid) in Hrun.
  injection Hrun as <- <-. rewrite lookup_insert_eq in Hmerged.
  injection Hmerged as <-.
  apply calculate_metrics_Ok in Hm as (Ht & _).
  apply calculate_metrics_Ok in Hm' as (Ht' & _).
  assert (length (rows (remediated base (data_editor offered)))
          = length (rows base)) as Hsame
    by (unfold remediated; cbn [scored rows]; by rewrite !length_fmap).
  assert (fresh (dom h) ≠ df) as Hne.
  { intros E. pose proof (fresh_ref_unused h) as Hf. rewrite E in Hf.
    congruence. }
  split; [done|]. split; [congruence|]. split; [|split; [|done]].
  - cbn [to_csv records]. rewrite length_fmap. congruence.
  - by rewrite lookup_insert_ne.
Qed.

Lemma page_keeps_resource_count_witness :
  show_remediation_page 1 (λ _, edits_R1) session
  = Ok (Some (metrics_or_zero loaded_inventory, metrics_or_zero merged_R1,
              2%positive, to_csv merged_R1),
        <[2%positive := merged_R1]> session) ∧
  total_resources (metrics_or_zero loaded_inventory)
  = length (rows loaded_inventory) ∧
  total_resources (metrics_or_zero merged_R1)
  = total_resources (metrics_or_zero loaded_inventory) ∧
  length (records (to_csv merged_R1))
  = total_resources (metrics_or_zero loaded_inventory) ∧
  (<[2%positive := merged_R1]> session) !! 1%positive = Some loaded_inventory ∧
  2%positive ≠ 1%positive.
Proof.
  split; [elem_tac|].
  apply (page_keeps_resource_count 1 2 loaded_inventory (λ _, edits_R1)
           session (<[2%positive := merged_R1]> session)
           (metrics_or_zero loaded_inventory) (metrics_or_zero merged_R1)
           (to_csv merged_R1)); elem_tac.
Defined.

(** ** What the edits do to the metrics *)

Lemma last_match_or_none (es : list row) (r : row) :
  Forall (λ e, ¬ matches r e) es ∨ ∃ e, last_match es r e.
Proof.
  induction es as [|e es [IH|(e' & es1 & es2 & -> & Hm & Hno)]].
  - by left.
  - destruct (decide (matches r e)) as [Hm|Hn].
    + right. exists e, [], es. by split.
    + left. by constructor.
  - right. exists e', (e :: es1), es2. by split.
Qed.

Lemma length_filter_fmap_le {A} (P Q : A → Prop) `{!∀ x, Decision (P x)}
    `{!∀ x, Decision (Q x)} (f : A → A) (l : list A) :
  (∀ x, x ∈ l → P (f x) → Q x) →
  length (filter P (f <$> l)) ≤ length (filter Q l).
Proof.
  induction l as [|x l IH]; intros Hl; [done|].
  rewrite fmap_cons, !filter_cons.
  assert (length (filter P (f <$> l)) ≤ length (filter Q l)) as Hle
    by (apply IH; intros y Hy; apply Hl; by right).
  destruct (decide (P (f x))) as [HP|HP]; destruct (decide (Q x)) as [HQ|HQ];
    cbn [length]; try lia.
  exfalso. apply HQ, Hl; [left|done].
Qed.

(** X17.  When no edited row carries [Tagged = "No"], the merge cannot
    raise the number of untagged resources: a row that is untagged after
    the merge was untagged before.  (The improvement the page shows is
    then the true difference, not a clamped one.) *)
Theorem marking_rows_lowers_untagged (df out : ref)
    (edited_df base merged : DataFrame) (h h' : store)
    (before after : Metrics) :
  h !! df = Some base →
  edit_columns ⊆ columns base →
  "Tagged" ∈ columns edited_df →
  Forall (λ e, at_col e "Tagged" ≠ Str "No") (rows edited_df) →
  remediate df edited_df h = Ok (out, h') →
  h' !! out = Some merged →
  calculate_metrics base = Ok before →
  calculate_metrics merged = Ok after →
  untagged_resources after ≤ untagged_resources before.
Proof.
  intros Hdf Hsub Htagged Hyes Hrun Hout Hbefore Hafter.
  rewrite (remediate_Ok_inv _ _ _ _ _ _ Hdf Hsub Hrun) in Hout.
  injection Hout as <-.
  apply calculate_metrics_Ok in Hbefore as (_ & _ & -> & _).
  apply calculate_metrics_Ok in Hafter as (_ & _ & -> & _).
  unfold remediated. cbn [scored rows]. rewrite <-list_fmap_compose.
  apply length_filter_fmap_le. intros r Hr. unfold compose, tagged_as.
  rewrite at_col_score_row by done.
  destruct (last_match_or_none (rows edited_df) r) as [Hno|[e Hlast]].
  - by rewrite apply_edits_no_match.
  - rewrite (apply_edits_last_match _ _ _ e) by (done || elem_tac).
    intros He. exfalso. destruct Hlast as (es1 & es2 & Hes & _).
    rewrite Forall_forall in Hyes. apply (Hyes e); [|done].
    rewrite Hes, elem_of_app. right. left.
Qed.

Lemma marking_rows_lowers_untagged_witness :
  remediate 1 edits_R1 session
  = Ok (2%positive, <[2%positive := merged_R1]> session) ∧
  untagged_resources (metrics_or_zero loaded_inventory) = 1 ∧
  untagged_resources (metrics_or_zero merged_R1) = 0 ∧
  untagged_resources (metrics_or_zero merged_R1)
  ≤ untagged_resources (metrics_or_zero loaded_inventory).
Proof.
  split; [elem_tac|]. split; [elem_tac|]. split; [elem_tac|].
  apply (marking_rows_lowers_untagged 1 2 edits_R1 loaded_inventory merged_R1
           session (<[2%positive := merged_R1]> session)); elem_tac.
Defined.

(** X18.  A row whose last edit fills in all five tag fields comes out of
    the merge with the full score: 5, and 100 percent. *)
Theorem completed_row_scores_five (df out : ref)
    (edited_df base merged : DataFrame) (h h' : store)
    (i : nat) (r e : row) :
  h !! df = Some base →
  edit_columns ⊆ columns base →
  tag_fields ⊆ columns edited_df →
  remediate df edited_df h = Ok (out, h') →
  h' !! out = Some merged →
  rows base !! i = Some r →
  last_match (rows edited_df) r e →
  Forall (λ c, at_col e c ≠ NaN) tag_fields →
  ∃ r', rows merged !! i = Some r' ∧
    at_col r' "TagCompletenessScore" = Num (Qc_of_nat 5) ∧
    at_col r' "TagCompletenessPercentage" = Num (Qc_of_nat 100).
Proof.
  intros Hdf Hsub Htags Hrun Hout Hi Hlast Hfull.
  rewrite (remediate_Ok_inv _ _ _ _ _ _ Hdf Hsub Hrun) in Hout.
  injection Hout as <-. unfold remediated. cbn [scored rows].
  set (x := apply_edits (columns edited_df) (rows edited_df) r).
  exists (score_row x). split; [by rewrite !list_lookup_fmap, Hi|].
  assert (count_notna x tag_fields = 5) as Hcount.
  { unfold count_notna. rewrite filter_all; [done|]. intros c Hc.
    unfold x. rewrite (apply_edits_last_match _ _ _ e); try done.
    - rewrite Forall_forall in Hfull. specialize (Hfull c Hc).
      by destruct (at_col e c).
    - by apply tag_fields_edit_columns.
    - by apply Htags. }
  split.
  - rewrite score_row_score, count_notna_score_row. by rewrite Hcount.
  - rewrite score_row_percentage, count_notna_score_row, Hcount.
    f_equal. by apply Qc_is_canon.
Qed.

Lemma completed_row_scores_five_witness :
  remediate 1 edits_R1 session
  = Ok (2%positive, <[2%positive := merged_R1]> session) ∧
  cells_at loaded_inventory 0 ["ResourceID"; "TagCompletenessScore"]
  = [Str "R1"; Num (Qc_of_nat 3)] ∧
  ∃ r', rows merged_R1 !! 0 = Some r' ∧
    at_col r' "TagCompletenessScore" = Num (Qc_of_nat 5) ∧
    at_col r' "TagCompletenessPercentage" = Num (Qc_of_nat 100).
Proof.
  split; [elem_tac|]. split; [elem_tac|].
  apply (completed_row_scores_five 1 2 edits_R1 loaded_inventory merged_R1
           session (<[2%positive := merged_R1]> session) 0
           (default ∅ (rows loaded_inventory !! 0))
           (default ∅ (rows edits_R1 !! 0))); try elem_tac.
  exists [], []. split; [elem_tac|]. split; [elem_tac|constructor].
Defined.

(** ** Metrics of a filtered view, and the average score *)

Lemma length_filter_filter_le {A} (P Q : A → Prop) `{!∀ x, Decision (P x)}
    `{!∀ x, Decision (Q x)} (l : list A) :
  length (filter P (filter Q l)) ≤ length (filter P l).
Proof.
  induction l as [|x l IH]; [done|]. rewrite !filter_cons.
  destruct (decide (Q x)); destruct (decide (P x)); rewrite ?filter_cons;
    try destruct (decide (P x)); cbn [length]; try done; lia.
Qed.

(** X19.  The metrics of a filtered view never fail when those of the
    whole frame exist, and its three counts are at most those of the
    whole; so is its total cost when the costs are whole numbers, not
    negative, that add up to less than [2^53] (rounded sums of other
    costs need not be monotone). *)
Theorem view_metrics_within_whole (df view : DataFrame) (sel : Selection)
    (m : Metrics) :
  apply_filters df sel = Ok view →
  calculate_metrics df = Ok m →
  ∃ mv, calculate_metrics view = Ok mv ∧
    total_resources mv ≤ total_resources m ∧
    tagged_resources mv ≤ tagged_resources m ∧
    untagged_resources mv ≤ untagged_resources m ∧
    (whole_costs (rows df) → (total_cost mv ≤ total_cost m)%Qc).
Proof.
  intros [Hcols Hrows]%apply_filters_Ok Hm.
  destruct (calculate_metrics_needs _ _ Hm) as (Ht & [Hc Hcost] & [Hs Hscore]).
  assert (∀ c, Forall (λ r, is_str (at_col r c) = false) (rows df) →
               Forall (λ r, is_str (at_col r c) = false) (rows view)) as Hsub.
  { intros c Hall. rewrite Hrows. rewrite Forall_forall in Hall.
    apply Forall_forall. intros r [_ Hr]%list_elem_of_filter. by apply Hall. }
  destruct (calculate_metrics_returns view) as [mv Hmv].
  { by rewrite Hcols. }
  { split; [by rewrite Hcols|by apply Hsub]. }
  { split; [by rewrite Hcols|by apply Hsub]. }
  exists mv. split; [done|].
  apply calculate_metrics_Ok in Hm as (-> & -> & -> & -> & _).
  apply calculate_metrics_Ok in Hmv as (-> & -> & -> & -> & _).
  rewrite Hrows. split; [apply length_filter|].
  split; [apply length_filter_filter_le|].
  split; [apply length_filter_filter_le|].
  intros Hwhole.
  rewrite !double_sum_cost_exact by (done || by apply whole_costs_filter).
  apply sum_cost_filter_le. destruct Hwhole as [Hrs _].
  eapply Forall_impl; [exact Hrs|]. apply whole_cost_nonneg.
Qed.

Lemma view_metrics_within_whole_witness :
  apply_filters loaded_inventory west_only = Ok west_view ∧
  whole_costs (rows loaded_inventory) ∧
  ∃ mv, calculate_metrics west_view = Ok mv ∧
    total_resources mv
    ≤ total_resources (metrics_or_zero loaded_inventory) ∧
    tagged_resources mv
    ≤ tagged_resources (metrics_or_zero loaded_inventory) ∧
    untagged_resources mv
    ≤ untagged_resources (metrics_or_zero loaded_inventory) ∧
    (whole_costs (rows loaded_inventory) →
     (total_cost mv ≤ total_cost (metrics_or_zero loaded_inventory))%Qc).
Proof.
  split; [elem_tac|]. split; [elem_tac|].
  apply (view_metrics_within_whole loaded_inventory west_view west_only);
    elem_tac.
Defined.

Lemma calculate_metrics_average (df : DataFrame) (m : Metrics) :
  calculate_metrics df = Ok m →
  getitem df "TagCompletenessScore" ≫= series_mean = Ok (avg_completeness m).
Proof.
  unfold calculate_metrics. intros H.
  apply bind_Ok in H as (y & _ & H). apply bind_Ok in H as (n & _ & H).
  apply bind_Ok in H as (tc & _ & H). apply bind_Ok in H as (y' & _ & H).
  apply bind_Ok in H as (yc & _ & H). apply bind_Ok in H as (n' & _ & H).
  apply bind_Ok in H as (nc & _ & H). apply bind_Ok in H as (a & Ha & H).
  by injection H as <-.
Qed.

Lemma Qc_of_nat_add (n k : nat) :
  Qc_of_nat (n + k) = (Qc_of_nat n + Qc_of_nat k)%Qc.
Proof. unfold Qc_of_nat. by rewrite Nat2Z.inj_add, Z2Qc_inj_add. Qed.

(** The sum of a column of scores, each a whole number up to [k]. *)
Lemma series_total_scores (k : nat) (s : series) :
  Forall (λ v, ∃ n, n ≤ k ∧ v = Num (Qc_of_nat n)) s →
  ∃ t, t ≤ k * length s ∧ series_total s = Ok (Qc_of_nat t) ∧
       filter (λ v, notna v = true) s = s.
Proof.
  induction 1 as [|v s (n & Hn & Hv) _ (t & Ht & Hsum & Hall)].
  - exists 0. split; [cbn [length]; lia|]. split; [|done].
    cbn [series_total]. f_equal. by apply Qc_is_canon.
  - rewrite Hv. exists (n + t). split; [cbn [length]; lia|]. split.
    + cbn [series_total]. rewrite Hsum. cbn [mbind result_bind].
      by rewrite Qc_of_nat_add.
    + rewrite filter_cons. cbn [notna]. rewrite decide_True by done.
      by rewrite Hall.
Qed.

(** X20.  Over a frame made by [load_data] or [remediate], the average
    completeness is undefined exactly when there is no row, and otherwise
    lies between 0 and 5. *)
Theorem average_completeness_bounded (df : DataFrame) (m : Metrics) :
  produced df →
  calculate_metrics df = Ok m →
  (rows df = [] → avg_completeness m = None) ∧
  (rows df ≠ [] →
   ∃ a, avg_completeness m = Some a ∧ (0 ≤ a)%Qc ∧ (a ≤ Qc_of_nat 5)%Qc).
Proof.
  intros [_ (_ & _ & _ & Hrows)]%produced_well_formed Hm.
  apply calculate_metrics_average in Hm. unfold getitem in Hm.
  case_decide; [|done]. cbn [mbind result_bind] in Hm.
  destruct (series_total_scores 5 ((λ r, at_col r "TagCompletenessScore")
                                   <$> rows df)) as (t & Ht & Hsum & Hall).
  { apply Forall_fmap. rewrite Forall_forall in Hrows. apply Forall_forall.
    intros r Hr. exists (count_notna r tag_fields).
    split; [apply count_notna_le|]. unfold compose.
    rewrite <-(Hrows r Hr) at 1. rewrite score_row_score.
    by rewrite count_notna_score_row. }
  unfold series_mean in Hm. rewrite Hsum, Hall, length_fmap in Hm.
  cbn [mbind result_bind] in Hm. injection Hm as <-.
  rewrite length_fmap in Ht. split.
  - intros ->. by rewrite decide_True.
  - intros Hne.
    assert (0 < length (rows df)) as Hpos
      by (destruct (rows df); [done|cbn [length]; lia]).
    rewrite decide_False by lia. eexists. split; [done|].
    pose proof (Qc_of_nat_pos _ Hpos) as Hn.
    assert (Qc_of_nat (length (rows df)) ≠ 0%Qc) as Hn0
      by (intros E; rewrite E in Hn; by apply (irreflexivity Qclt 0%Qc)).
    split.
    + unfold Qcdiv. apply Qcmult_nonneg_nonneg; [apply Qc_of_nat_nonneg|].
      by apply Qclt_le_weak, Qcinv_pos.
    + apply (Qcmult_le_mono_pos_r _ _ _ Hn). unfold Qcdiv.
      rewrite <-Qcmult_assoc, Qcmult_inv_l, Qcmult_1_r by done.
      unfold Qc_of_nat at 2 3. rewrite <-Z2Qc_inj_mul.
      apply (proj1 (Z2Qc_inj_le _ _)). lia.
Qed.

Lemma average_completeness_bounded_witness :
  produced loaded_inventory ∧
  calculate_metrics loaded_inventory = Ok (metrics_or_zero loaded_inventory) ∧
  (rows loaded_inventory = [] →
   avg_completeness (metrics_or_zero loaded_inventory) = None) ∧
  (rows loaded_inventory ≠ [] →
   ∃ a, avg_completeness (metrics_or_zero loaded_inventory) = Some a ∧
        (0 ≤ a)%Qc ∧ (a ≤ Qc_of_nat 5)%Qc).
Proof.
  assert (produced loaded_inventory) as Hp
    by (apply (produced_load inventory); elem_tac).
  split; [done|]. split; [elem_tac|].
  apply (average_completeness_bounded loaded_inventory); [done|elem_tac].
Defined.

(** X21.  The CSV of any frame has one field for each column in every
    record, so loading it never fails on its shape: it loads exactly when
    the frame has the five tag columns. *)
Theorem export_loads_iff (df : DataFrame) :
  load_data (to_csv df) ≠ Raise ParserError ∧
  ((∃ df', load_data (to_csv df) = Ok df') ↔ tag_fields ⊆ columns df).
Proof.
  rewrite load_data_spec. cbn [to_csv headers records].
  rewrite decide_True.
  2:{ apply Forall_fmap, Forall_forall. intros r _. unfold compose.
      by rewrite length_fmap. }
  destruct (filter (λ c, c ∉ columns df) tag_fields) as [|c0 cs] eqn:E.
  - split; [done|]. split; [|eauto]. intros _ c Hc.
    destruct (decide (c ∈ columns df)) as [|Hn]; [done|].
    assert (c ∈ filter (λ c, c ∉ columns df) tag_fields) as Hin
      by by apply list_elem_of_filter.
    rewrite E in Hin. by apply not_elem_of_nil in Hin.
  - split; [done|]. split; [by intros [? ?]|]. intros Hsub.
    assert (c0 ∈ filter (λ c, c ∉ columns df) tag_fields) as Hin
      by (rewrite E; left).
    apply list_elem_of_filter in Hin as [Hn Hc]. by apply Hsub in Hc.
Qed.
